(** * ChatGPT MCP tool (index.ts): a shallow embedding and its properties

    The program is a single TypeScript file.  It exposes one tool with two
    operations, [ask] and [get_conversations], and drives the ChatGPT desktop
    application through AppleScript text that it generates and hands to
    [runAppleScript].

    The embedding has four layers:
    - strings: the JavaScript string operations the file uses ([replace] with
      a global one-character pattern, [split], [join]) and the reading of an
      AppleScript string literal;
    - the response watcher: the polling loop of the generated script;
    - the world: a state and error monad over the clock, the rate limiter's
      timestamp, the clipboard, the chat input and an event trace, with the
      behaviour of the desktop application given by an environment record;
    - the request handler with its argument validation.

    Characters are code units below 256. *)

From Stdlib Require Import String Ascii List Bool Arith ZArith Lia.
From Stdlib Require Import QArith Qround Qminmax.
From Stdlib Require Import DecimalString.
Import ListNotations.

Set Implicit Arguments.
Local Close Scope Q_scope.
Local Open Scope string_scope.
Local Open Scope nat_scope.

(** ** Characters that matter to the generated script *)

Definition dquote : ascii := ascii_of_nat 34.
Definition backslash : ascii := ascii_of_nat 92.
Definition LF : ascii := ascii_of_nat 10.
Definition CR : ascii := ascii_of_nat 13.
Definition TAB : ascii := ascii_of_nat 9.

Definition str1 (c : ascii) : string := String c EmptyString.

(** ** JavaScript string operations *)

Module JsString.

(** [s.replace(/c/g, rep)] for a pattern that is one literal character. *)
Fixpoint replace_all (c : ascii) (rep : string) (s : string) : string :=
  match s with
  | EmptyString => EmptyString
  | String a s' =>
      if Ascii.eqb a c then rep ++ replace_all c rep s'
      else String a (replace_all c rep s')
  end.

Fixpoint starts_with (p s : string) : bool :=
  match p, s with
  | EmptyString, _ => true
  | String a p', String b s' => Ascii.eqb a b && starts_with p' s'
  | String _ _, EmptyString => false
  end.

(** The scan of [s.split(sep)] for a non-empty [sep]: [skip] counts the
    characters of a separator occurrence still to be passed over, [cur] is
    the piece being collected. *)
Fixpoint split_scan (sep : string) (s : string) (skip : nat) (cur : string)
  : list string :=
  match s with
  | EmptyString => [cur]
  | String a s' =>
      match skip with
      | S k => split_scan sep s' k cur
      | O =>
          if starts_with sep s
          then cur :: split_scan sep s' (String.length sep - 1) EmptyString
          else split_scan sep s' 0 (cur ++ str1 a)
      end
  end.

Fixpoint chars (s : string) : list string :=
  match s with
  | EmptyString => []
  | String a s' => str1 a :: chars s'
  end.

(** [s.split(sep)]; an empty separator splits into single characters. *)
Definition split (sep s : string) : list string :=
  match sep with
  | EmptyString => chars s
  | String _ _ => split_scan sep s 0 EmptyString
  end.

(** [l.join(sep)]. *)
Definition join (sep : string) (l : list string) : string :=
  String.concat sep l.

(** Truthiness of a string. *)
Definition truthy (s : string) : bool :=
  negb (String.eqb s EmptyString).

(** The white space and line terminators of JavaScript among the code
    units below 256: tab, line feed, vertical tab, form feed, carriage
    return, space and no-break space. *)
Definition is_space (c : ascii) : bool :=
  let n := nat_of_ascii c in
  ((9 <=? n) && (n <=? 13)) || (n =? 32) || (n =? 160).

Fixpoint trim_start (s : string) : string :=
  match s with
  | EmptyString => EmptyString
  | String c s' => if is_space c then trim_start s' else s
  end.

Fixpoint trim_end (s : string) : string :=
  match s with
  | EmptyString => EmptyString
  | String c s' =>
      match trim_end s' with
      | EmptyString => if is_space c then EmptyString else str1 c
      | String _ _ as t => String c t
      end
  end.

(** [s.trim()] *)
Definition trim (s : string) : string := trim_end (trim_start s).

End JsString.

(** ** AppleScript string literals *)

Module AppleScript.

(** The character an escape sequence [\e] of a string literal stands for;
    any other character after a backslash is a syntax error. *)
Definition unescape (e : ascii) : option ascii :=
  if Ascii.eqb e dquote then Some dquote
  else if Ascii.eqb e backslash then Some backslash
  else if Ascii.eqb e "n"%char then Some LF
  else if Ascii.eqb e "r"%char then Some CR
  else if Ascii.eqb e "t"%char then Some TAB
  else None.

Definition push (c : ascii) (r : option (string * string))
  : option (string * string) :=
  match r with
  | Some (body, rest) => Some (String c body, rest)
  | None => None
  end.

(** Reads a string literal whose opening quote has been consumed: the
    value of the literal and the script text after its closing quote.
    [None] when the literal is not closed or holds an unknown escape. *)
Fixpoint read_literal (s : string) : option (string * string) :=
  match s with
  | EmptyString => None
  | String c s1 =>
      if Ascii.eqb c dquote then Some (EmptyString, s1)
      else if Ascii.eqb c backslash then
        match s1 with
        | EmptyString => None
        | String e s2 =>
            match unescape e with
            | Some d => push d (read_literal s2)
            | None => None
            end
        end
      else push c (read_literal s1)
  end.

(** The lower-case form of a letter [A] to [Z]; other characters are kept. *)
Definition lower (c : ascii) : ascii :=
  let n := nat_of_ascii c in
  if (65 <=? n) && (n <=? 90) then ascii_of_nat (n + 32) else c.

(** Equality of strings as [is] and [is not] test it: AppleScript compares
    text ignoring case unless told otherwise. *)
Fixpoint same_text (s t : string) : bool :=
  match s, t with
  | EmptyString, EmptyString => true
  | String a s', String b t' => Ascii.eqb (lower a) (lower b) && same_text s' t'
  | _, _ => false
  end.

(** How osascript prints a list result: the items separated by ", ". *)
Definition print_list (l : list string) : string :=
  String.concat ", " l.

End AppleScript.

(** ** The two interpolations of the script of [askChatGPT] *)

(** [prompt.replace(/"/g, '\\"').replace(/\n/g, '\\n')] *)
Definition escape_prompt (prompt : string) : string :=
  JsString.replace_all LF (String backslash "n")
    (JsString.replace_all dquote (String backslash (str1 dquote)) prompt).

(** The line [set thePrompt to "${...}"]. *)
Definition prompt_line (prompt : string) : string :=
  "set thePrompt to " ++ str1 dquote ++ escape_prompt prompt ++ str1 dquote.

Definition click_suffix : string := " of group 1 of group 1 of window 1".

(** The line [click button "${conversationId}" of group 1 of group 1 of
    window 1]: the identifier is interpolated as it is. *)
Definition click_line (conversationId : string) : string :=
  "click button " ++ str1 dquote ++ conversationId ++ str1 dquote
    ++ click_suffix.

Fixpoint strip_prefix (p s : string) : option string :=
  match p, s with
  | EmptyString, _ => Some s
  | String a p', String b s' =>
      if Ascii.eqb a b then strip_prefix p' s' else None
  | String _ _, EmptyString => None
  end.

Definition literal_after (keyword line : string) : option (string * string) :=
  match strip_prefix (keyword ++ str1 dquote) line with
  | Some s => AppleScript.read_literal s
  | None => None
  end.

(** The value the script binds to [thePrompt], with the text that follows
    the literal on its line. *)
Definition thePrompt_of (prompt : string) : option (string * string) :=
  literal_after "set thePrompt to " (prompt_line prompt).

(** The name of the button the script clicks, with the text that follows
    the literal on its line. *)
Definition click_button_target (conversationId : string)
  : option (string * string) :=
  literal_after "click button " (click_line conversationId).

(** What the script of [askChatGPT] holds once compiled: the button to
    click, if any, and the value of [thePrompt]. *)
Record AskScript := {
  select_target : option string;
  thePrompt : string
}.

(** The script read as its template: [Some] when each interpolated literal
    is closed by the template's own quote, so that the script is the template
    with these two texts in it.  [None] when a text leaves its literal or
    cannot be read: the generated text is then some other program, or none.
    The embedding follows the template only; see [run_ask_script]. *)
Definition compile_ask_script (prompt : string) (conversationId : option string)
  : option AskScript :=
  match thePrompt_of prompt with
  | Some (p, EmptyString) =>
      match conversationId with
      | None => Some {| select_target := None; thePrompt := p |}
      | Some cid =>
          match click_button_target cid with
          | Some (t, rest) =>
              if String.eqb rest click_suffix
              then Some {| select_target := Some t; thePrompt := p |}
              else None
          | None => None
          end
      end
  | _ => None
  end.


(** ** The response watcher: the polling loop of the script *)

Module Watcher.

Record Config := {
  maxWaitTime : nat;      (* seconds *)
  pollInterval : nat;     (* seconds *)
  requiredStable : nat
}.

(** [set maxWaitTime to 120], [set pollInterval to 3],
    [if stableResponseCount >= 3]. *)
Definition script_config : Config :=
  {| maxWaitTime := 120; pollInterval := 3; requiredStable := 3 |}.

(** The variables of the loop; [polls] counts the reads of the output
    text area made so far. *)
Record State := {
  waitTime : nat;
  previousResponseLength : nat;
  stableResponseCount : nat;
  responseText : string;
  polls : nat
}.

Definition start : State :=
  {| waitTime := 0; previousResponseLength := 0; stableResponseCount := 0;
     responseText := ""; polls := 0 |}.

Definition could_not_retrieve : string :=
  "Could not retrieve the complete response from ChatGPT (timed out).".
Definition took_too_long : string :=
  "ChatGPT took too long to respond. Please try again with a simpler question.".

(** The output surface: what the [k]-th read of [value of text area 2]
    gives, [None] when the read raises an error. *)
Definition Output := nat -> option string.

(** [try set currentResponseText to value of ... on error set
    currentResponseText to ""]. *)
Definition sample (out : Output) (k : nat) : string :=
  match out k with
  | Some t => t
  | None => ""
  end.

Inductive Step :=
| ExitRepeat (st : State)
| NextPoll (st : State).

(** The body of the [repeat] loop on the text just read. *)
Definition poll (cfg : Config) (currentResponseText : string) (st : State)
  : Step :=
  let currentLength := String.length currentResponseText in
  if (0 <? currentLength) && (currentLength =? previousResponseLength st)
  then
    let count := S (stableResponseCount st) in
    if requiredStable cfg <=? count
    then ExitRepeat
           {| waitTime := waitTime st;
              previousResponseLength := previousResponseLength st;
              stableResponseCount := count;
              responseText := currentResponseText;
              polls := S (polls st) |}
    else NextPoll
           {| waitTime := waitTime st + pollInterval cfg;
              previousResponseLength := currentLength;
              stableResponseCount := count;
              responseText := responseText st;
              polls := S (polls st) |}
  else NextPoll
         {| waitTime := waitTime st + pollInterval cfg;
            previousResponseLength := currentLength;
            stableResponseCount := 0;
            responseText := responseText st;
            polls := S (polls st) |}.

Inductive Run :=
| Exited (st : State)      (* left by [exit repeat] *)
| TimedOut (st : State)    (* left because [waitTime > maxWaitTime] *)
| Polling (st : State).    (* still in the loop after [n] iterations *)

(** [repeat until waitTime > maxWaitTime ... end repeat], at most [n]
    iterations of it. *)
Fixpoint run (cfg : Config) (n : nat) (out : Output) (st : State) : Run :=
  match n with
  | O => Polling st
  | S n' =>
      if maxWaitTime cfg <? waitTime st then TimedOut st
      else match poll cfg (sample out (polls st)) st with
           | ExitRepeat st' => Exited st'
           | NextPoll st' => run cfg n' out st'
           end
  end.

(** Iterations that always suffice when [pollInterval] is positive. *)
Definition fuel (cfg : Config) : nat :=
  maxWaitTime cfg / pollInterval cfg + 2.

Definition loop (cfg : Config) (out : Output) : Run :=
  run cfg (fuel cfg) out start.

(** The statements after the loop: the text the script returns and the
    number of reads made, from the variables the loop left. *)
Definition conclude (cfg : Config) (out : Output) (st : State)
  : string * nat :=
  if (maxWaitTime cfg <? waitTime st) && (0 <? previousResponseLength st)
  then (match out (polls st) with
        | Some t => t
        | None => could_not_retrieve
        end, S (polls st))
  else if maxWaitTime cfg <? waitTime st
       then (took_too_long, polls st)
       else (responseText st, polls st).

Record Result := {
  response : string;     (* what the script returns *)
  reads : nat;           (* reads of the output text area *)
  waited : nat           (* seconds spent in [delay pollInterval] *)
}.

(** The watcher as a whole; [None] only if the loop were still running
    after [fuel] iterations. *)
Definition awaitCompletion (cfg : Config) (out : Output) : option Result :=
  match loop cfg out with
  | Exited st | TimedOut st =>
      let (t, r) := conclude cfg out st in
      Some {| response := t; reads := r; waited := waitTime st |}
  | Polling _ => None
  end.

(** A scripted output surface: the texts of [l] in order, then [rest]. *)
Definition feed (l : list string) (rest : string) : Output :=
  fun k => Some (nth k l rest).

(** The description of the samples that the watcher is measured against. *)
Section Samples.
Variable out : Output.

Definition len (j : nat) : nat := String.length (sample out j).

(** The length the poll [j] compares with: that of the sample before
    it, 0 for the first poll. *)
Definition prevlen (j : nat) : nat :=
  match j with
  | O => 0
  | S i => len i
  end.

(** Poll [j] saw a non-zero length equal to the previous sample's. *)
Definition stable (j : nat) : bool :=
  (0 <? len j) && (len j =? prevlen j).

(** The number of consecutive stable polls that end just before poll
    [k]. *)
Fixpoint streak (k : nat) : nat :=
  match k with
  | O => 0
  | S j => if stable j then S (streak j) else 0
  end.
End Samples.

End Watcher.

(** ** The world: state, events and the desktop application *)

Inductive Event :=
| EvSleep (ms : Z)                       (* bun's [sleep] of the rate limiter *)
| EvActivate                             (* [activate] of the application *)
| EvClickConversation (name : string)    (* a conversation button clicked *)
| EvSetClipboard (content : string)      (* [set the clipboard to] *)
| EvFocusInput                           (* [click text field 1 ...] *)
| EvPaste (content : string)             (* [keystroke "v" using command down] *)
| EvSend (message : string).             (* [keystroke return] *)

Record World := {
  clock : Z;                      (* [Date.now()], milliseconds *)
  lastRequestTime : Z;            (* the module variable of the rate limiter *)
  clipboard : string;             (* the system clipboard *)
  input_field : string;           (* the chat input of the application *)
  reads_done : nat;               (* reads of the output text area so far *)
  trace : list (Z * Event)        (* what was done and when, latest first *)
}.

(** How the desktop application and the automation layer answer. *)
Record Env := {
  process_exists : string + string;     (* the [exists] query as [runAppleScript]
                                           answers it: an error, or the printed
                                           result, trimmed *)
  activate_error : option string;       (* [activate] fails with this message *)
  system_events_error : option string;  (* the UI scripting layer refuses *)
  conversation_button : string -> bool; (* a button of that name can be clicked *)
  focus_error : option string;          (* clicking the input field fails *)
  paste_error : option string;          (* the paste keystroke fails *)
  send_error : option string;           (* the return keystroke fails *)
  output : Watcher.Output;              (* the output text area, read by read *)
  chat_buttons : option (list string)   (* the sidebar's button names; [None]
                                           when enumerating them fails *)
}.

(** State and exceptions: the world is kept when an error is thrown. *)
Definition M (A : Type) : Type := World -> World * (string + A).

Definition ret {A} (a : A) : M A := fun w => (w, inr a).

Definition bind {A B} (m : M A) (k : A -> M B) : M B :=
  fun w =>
    match m w with
    | (w', inr a) => k a w'
    | (w', inl e) => (w', inl e)
    end.

Definition throw {A} (e : string) : M A := fun w => (w, inl e).

Definition try_catch {A} (m : M A) (handler : string -> M A) : M A :=
  fun w =>
    match m w with
    | (w', inr a) => (w', inr a)
    | (w', inl e) => handler e w'
    end.

Declare Scope world_scope.
Delimit Scope world_scope with world.
Notation "x <- m ;; k" := (bind m (fun x => k))
  (at level 61, m at next level, right associativity) : world_scope.
Notation "m ;; k" := (bind m (fun _ => k))
  (at level 61, right associativity) : world_scope.
Local Open Scope world_scope.

Definition Date_now : M Z := fun w => (w, inr (clock w)).

Definition advance (ms : Z) (w : World) : World :=
  {| clock := clock w + ms; lastRequestTime := lastRequestTime w;
     clipboard := clipboard w; input_field := input_field w;
     reads_done := reads_done w; trace := trace w |}.

Definition record_event (e : Event) (w : World) : World :=
  {| clock := clock w; lastRequestTime := lastRequestTime w;
     clipboard := clipboard w; input_field := input_field w;
     reads_done := reads_done w; trace := (clock w, e) :: trace w |}.

Definition log (e : Event) : M unit := fun w => (record_event e w, inr tt).

(** [await sleep(ms)] *)
Definition sleep (ms : Z) : M unit :=
  fun w => (advance (Z.max 0 ms) (record_event (EvSleep ms) w), inr tt).

(** AppleScript's [delay], in seconds. *)
Definition ms_of_seconds (secs : Q) : Z := Qfloor (secs * 1000)%Q.

Definition delay (secs : Q) : M unit :=
  fun w => (advance (ms_of_seconds secs) w, inr tt).

Definition fail_if (err : option string) : M unit :=
  match err with
  | Some e => throw e
  | None => ret tt
  end.

(** [try ... end try]: an error inside is dropped. *)
Definition try_ (m : M unit) : M unit := try_catch m (fun _ => ret tt).

(** [runAppleScript(script)] for a script that returns text: the script is
    run and what it printed is returned trimmed ([stdout.trim()]); an error of
    the script is thrown on. *)
Definition runAppleScript (script : M string) : M string :=
  stdout <- script ;; ret (JsString.trim stdout).

(** *** The rate limiter *)

Definition RATE_LIMIT_DELAY : Z := 120000.

(** [customDelay || RATE_LIMIT_DELAY] on an optional number. *)
Definition or_default (customDelay : option Z) (default : Z) : Z :=
  match customDelay with
  | Some d => if Z.eqb d 0 then default else d
  | None => default
  end.

Definition get_lastRequestTime : M Z := fun w => (w, inr (lastRequestTime w)).

Definition waitForRateLimit (customDelay : option Z) : M unit :=
  now <- Date_now ;;
  last <- get_lastRequestTime ;;
  let timeSinceLastRequest := (now - last)%Z in
  let delayToUse := or_default customDelay RATE_LIMIT_DELAY in
  if (timeSinceLastRequest <? delayToUse)%Z
  then
    let waitTime := (delayToUse - timeSinceLastRequest)%Z in
    sleep waitTime
  else ret tt.

Definition set_lastRequestTime (t : Z) : M unit :=
  fun w =>
    ({| clock := clock w; lastRequestTime := t; clipboard := clipboard w;
        input_field := input_field w; reads_done := reads_done w;
        trace := trace w |}, inr tt).

(** *** Steps of the scripts *)

Definition activate (env : Env) : M unit :=
  fail_if (activate_error env) ;; log EvActivate.

Definition enter_system_events (env : Env) : M unit :=
  fail_if (system_events_error env).

Definition click_conversation (env : Env) (name : string) : M unit :=
  if conversation_button env name
  then log (EvClickConversation name)
  else throw ("Can't get button " ++ name).

Definition get_clipboard : M string := fun w => (w, inr (clipboard w)).

Definition set_clipboard (content : string) : M unit :=
  fun w =>
    (record_event (EvSetClipboard content)
       {| clock := clock w; lastRequestTime := lastRequestTime w;
          clipboard := content; input_field := input_field w;
          reads_done := reads_done w; trace := trace w |}, inr tt).

Definition focus_input (env : Env) : M unit :=
  fail_if (focus_error env) ;; log EvFocusInput.

Definition paste (env : Env) : M unit :=
  fail_if (paste_error env) ;;
  fun w =>
    (record_event (EvPaste (clipboard w))
       {| clock := clock w; lastRequestTime := lastRequestTime w;
          clipboard := clipboard w;
          input_field := input_field w ++ clipboard w;
          reads_done := reads_done w; trace := trace w |}, inr tt).

Definition send (env : Env) : M unit :=
  fail_if (send_error env) ;;
  fun w =>
    (record_event (EvSend (input_field w))
       {| clock := clock w; lastRequestTime := lastRequestTime w;
          clipboard := clipboard w; input_field := "";
          reads_done := reads_done w; trace := trace w |}, inr tt).

(** [set pasteDelay to promptLength / 1000 + 1], in seconds. *)
Definition pasteDelay (promptLength : nat) : Q :=
  (inject_Z (Z.of_nat promptLength) / 1000 + 1)%Q.

(** The polling part of the script, on the output surface as it stands
    after the reads already made. *)
Definition wait_for_response (env : Env) : M string :=
  fun w =>
    match Watcher.awaitCompletion Watcher.script_config
            (fun k => output env (reads_done w + k)) with
    | Some r =>
        ({| clock := clock w + 1000 * Z.of_nat (Watcher.waited r);
            lastRequestTime := lastRequestTime w; clipboard := clipboard w;
            input_field := input_field w;
            reads_done := reads_done w + Watcher.reads r;
            trace := trace w |}, inr (Watcher.response r))
    | None => (w, inl "the polling loop did not end")
    end.

(** *** checkChatGPTAccess *)

Definition could_not_activate : string :=
  "Could not activate ChatGPT app. Please start it manually.".
Definition cannot_access : string :=
  "Cannot access ChatGPT app. Please make sure ChatGPT is installed and properly configured. Error: ".

(** [tell application "System Events" return application process "ChatGPT"
    exists]. *)
Definition exists_script (env : Env) : M string :=
  match process_exists env with
  | inl e => throw e
  | inr printed => ret printed
  end.

(** [tell application "ChatGPT" to activate], [delay 2]. *)
Definition activate_script (env : Env) : M unit :=
  activate env ;; delay 2.

Definition checkChatGPTAccess (env : Env) : M bool :=
  try_catch
    (isRunning <- exists_script env ;;
     (if String.eqb isRunning "true"
      then ret tt
      else try_catch (activate_script env)
             (fun _ => throw could_not_activate)) ;;
     ret true)
    (fun e => throw (cannot_access ++ e)).

(** *** askChatGPT *)

(** The script of [askChatGPT], run on what it compiled to. *)
Definition ask_script (env : Env) (sc : AskScript) : M string :=
  activate env ;;
  delay 1 ;;
  enter_system_events env ;;
  match select_target sc with
  | Some name => try_ (click_conversation env name ;; delay 1)
  | None => ret tt
  end ;;
  originalClipboard <- get_clipboard ;;
  set_clipboard (thePrompt sc) ;;
  focus_input env ;;
  delay (1 # 2) ;;
  paste env ;;
  let promptLength := String.length (thePrompt sc) in
  delay (pasteDelay promptLength) ;;
  send env ;;
  set_clipboard originalClipboard ;;
  delay 2 ;;
  wait_for_response env.

Definition syntax_error : string := "syntax error".

(** [conversationId ? ... : ''] *)
Definition when_truthy (conversationId : option string) : option string :=
  match conversationId with
  | Some cid => if JsString.truthy cid then Some cid else None
  | None => None
  end.

(** [runAppleScript] on the generated text.  A generated text that is not
    the template with its two texts in it is not followed: the embedding gives
    such a run the outcome of a script that osascript refuses, and describes
    nothing of what such a program would do.  A statement that is to hold of
    every run carries the hypothesis that the prompt and the conversation id
    stay inside their literals. *)
Definition run_ask_script (env : Env) (prompt : string)
  (conversationId : option string) : M string :=
  match compile_ask_script prompt (when_truthy conversationId) with
  | Some sc => runAppleScript (ask_script env sc)
  | None => throw syntax_error
  end.

Definition failed_to_get : string := "Failed to get response from ChatGPT: ".

Definition askChatGPT (env : Env) (prompt : string)
  (conversationId : option string) (customDelay : option Z) : M string :=
  checkChatGPTAccess env ;;
  waitForRateLimit customDelay ;;
  now <- Date_now ;;
  set_lastRequestTime now ;;
  try_catch (run_ask_script env prompt conversationId)
    (fun e => throw (failed_to_get ++ e)).

(** *** getConversations *)

Definition unable_to_retrieve : string := "Unable to retrieve conversations".
Definition error_retrieving : string := "Error retrieving conversations".

(** The script of [getConversations]: the names of the buttons whose name
    [is not "New chat"], or the one-item list of its [on error] branch,
    printed. *)
Definition list_script (env : Env) : M string :=
  activate env ;;
  delay 1 ;;
  enter_system_events env ;;
  let conversationsList :=
    match chat_buttons env with
    | Some names =>
        filter (fun buttonName =>
                  negb (AppleScript.same_text buttonName "New chat")) names
    | None => [unable_to_retrieve]
    end in
  ret (AppleScript.print_list conversationsList).

Definition getConversations (env : Env) : M (list string) :=
  checkChatGPTAccess env ;;
  try_catch
    (result <- runAppleScript (list_script env) ;;
     ret (JsString.split ", " result))
    (fun _ => ret [error_retrieving]).

(** ** The request handler *)

(** The values a tool call can carry as its arguments. *)
#[warnings="-register-all"]
Inductive JsVal :=
| JUndefined
| JNull
| JBool (b : bool)
| JNum (n : Z)
| JStr (s : string)
| JObj (fields : list (string * JsVal)).

Definition truthy (v : JsVal) : bool :=
  match v with
  | JUndefined | JNull => false
  | JBool b => b
  | JNum n => negb (Z.eqb n 0)
  | JStr s => JsString.truthy s
  | JObj _ => true
  end.

Fixpoint lookup (k : string) (fields : list (string * JsVal)) : JsVal :=
  match fields with
  | [] => JUndefined
  | (k', v) :: fields' => if String.eqb k k' then v else lookup k fields'
  end.

(** Property read [v.k]. *)
Definition get (k : string) (v : JsVal) : JsVal :=
  match v with
  | JObj fields => lookup k fields
  | _ => JUndefined
  end.

Definition is_string (v : JsVal) : bool :=
  match v with JStr _ => true | _ => false end.
Definition is_number (v : JsVal) : bool :=
  match v with JNum _ => true | _ => false end.
Definition is_undefined (v : JsVal) : bool :=
  match v with JUndefined => true | _ => false end.
Definition is_object (v : JsVal) : bool :=
  match v with JObj _ => true | _ => false end.

(** [v === s] for a string [s]. *)
Definition is_str (s : string) (v : JsVal) : bool :=
  match v with JStr s' => String.eqb s' s | _ => false end.

Definition isChatGPTArgs (args : JsVal) : bool :=
  if negb (is_object args) then false
  else
    let operation := get "operation" args in
    let prompt := get "prompt" args in
    let conversation_id := get "conversation_id" args in
    let delay_ms := get "delay_ms" args in
    if negb (truthy operation)
       || negb (is_str "ask" operation || is_str "get_conversations" operation)
    then false
    else if is_str "ask" operation && negb (truthy prompt) then false
    else if truthy prompt && negb (is_string prompt) then false
    else if truthy conversation_id && negb (is_string conversation_id) then false
    else if negb (is_undefined delay_ms) && negb (is_number delay_ms) then false
    else true.

Record ToolResult := {
  text : string;
  isError : bool
}.

Definition as_string (v : JsVal) : string :=
  match v with JStr s => s | _ => "" end.
Definition as_optional_string (v : JsVal) : option string :=
  match v with JStr s => Some s | _ => None end.
Definition as_optional_number (v : JsVal) : option Z :=
  match v with JNum n => Some n | _ => None end.

Definition decimal (n : nat) : string :=
  NilEmpty.string_of_uint (Nat.to_uint n).

Definition no_response : string := "No response received from ChatGPT.".
Definition no_conversations : string := "No conversations found in ChatGPT.".

Definition found_text (conversations : list string) : string :=
  if 0 <? List.length conversations
  then "Found " ++ decimal (List.length conversations) ++ " conversation(s):"
         ++ str1 LF ++ str1 LF ++ JsString.join (str1 LF) conversations
  else no_conversations.

(** The body of the handler's [try]. *)
Definition dispatch (env : Env) (name : string) (args : JsVal) : M ToolResult :=
  if negb (truthy args) then throw "No arguments provided"
  else if String.eqb name "chatgpt" then
    if negb (isChatGPTArgs args) then throw "Invalid arguments for ChatGPT tool"
    else if is_str "ask" (get "operation" args) then
      if negb (truthy (get "prompt" args))
      then throw "Prompt is required for ask operation"
      else
        response <- askChatGPT env (as_string (get "prompt" args))
                      (as_optional_string (get "conversation_id" args))
                      (as_optional_number (get "delay_ms" args)) ;;
        ret {| text := if JsString.truthy response then response
                       else no_response;
               isError := false |}
    else if is_str "get_conversations" (get "operation" args) then
      conversations <- getConversations env ;;
      ret {| text := found_text conversations; isError := false |}
    else throw ("Unknown operation: " ++ as_string (get "operation" args))
  else ret {| text := "Unknown tool: " ++ name; isError := true |}.

(** The handler of a tool call: errors become an error result. *)
Definition call_tool (env : Env) (name : string) (args : JsVal)
  : World -> World * ToolResult :=
  fun w =>
    match dispatch env name args w with
    | (w', inr r) => (w', r)
    | (w', inl e) => (w', {| text := "Error: " ++ e; isError := true |})
    end.

(** * The vocabulary of the statements *)

(** ** Strings *)

Definition plain_char (c : ascii) : bool :=
  negb (Ascii.eqb c dquote) && negb (Ascii.eqb c backslash).

(** No double quote and no backslash. *)
Fixpoint plain (s : string) : bool :=
  match s with
  | EmptyString => true
  | String c s' => plain_char c && plain s'
  end.

Fixpoint no_backslash (s : string) : bool :=
  match s with
  | EmptyString => true
  | String c s' => negb (Ascii.eqb c backslash) && no_backslash s'
  end.


(** A prompt that holds a backslash: the four characters [a], backslash,
    [t], [b]. *)
Definition backslash_t_prompt : string :=
  String "a" (String backslash (String "t" "b")).

(** ** Worlds and environments to run the program on *)

(** An application that is running and where every step succeeds; its
    output text area shows [out] and its sidebar the buttons [names]. *)
Definition calm (out : Watcher.Output) (names : list string) : Env :=
  {| process_exists := inr "true";
     activate_error := None;
     system_events_error := None;
     conversation_button := fun _ => true;
     focus_error := None;
     paste_error := None;
     send_error := None;
     output := out;
     chat_buttons := Some names |}.

(** The same application, except that clicking the input field fails. *)
Definition unfocusable (out : Watcher.Output) : Env :=
  {| process_exists := inr "true";
     activate_error := None;
     system_events_error := None;
     conversation_button := fun _ => true;
     focus_error := Some "Can't get text field 1";
     paste_error := None;
     send_error := None;
     output := out;
     chat_buttons := Some [] |}.

(** The same application, except that its sidebar cannot be enumerated. *)
Definition unlistable : Env :=
  {| process_exists := inr "true";
     activate_error := None;
     system_events_error := None;
     conversation_button := fun _ => true;
     focus_error := None;
     paste_error := None;
     send_error := None;
     output := fun _ => None;
     chat_buttons := None |}.

(** A world at time [now] whose last request was dispatched at [last] and
    whose clipboard holds [clip]. *)
Definition world_at (now last : Z) (clip : string) : World :=
  {| clock := now; lastRequestTime := last; clipboard := clip;
     input_field := ""; reads_done := 0; trace := [] |}.

(** An output that shows [abc] from the second read on. *)
Definition settles : Watcher.Output := Watcher.feed [""] "abc".

Definition ask_request (prompt : JsVal) : JsVal :=
  JObj [("operation", JStr "ask"); ("prompt", prompt)].

Definition list_request : JsVal :=
  JObj [("operation", JStr "get_conversations")].

(** ** Reading the trace *)




Definition is_error {A} (r : string + A) : bool :=
  match r with inl _ => true | inr _ => false end.

(** The three steps between the write of the prompt to the clipboard and
    its restoration all succeed. *)
Definition delivery_succeeds (env : Env) : bool :=
  match focus_error env, paste_error env, send_error env with
  | None, None, None => true
  | _, _, _ => false
  end.

(** The script gets as far as its clipboard steps. *)
Definition reaches_clipboard (env : Env) : bool :=
  match activate_error env, system_events_error env with
  | None, None => true
  | _, _ => false
  end.

(** ** The watcher's loop, poll by poll *)

Section Canonical.
Variable cfg : Watcher.Config.
Variable out : Watcher.Output.

(** The variables of the loop before poll [k], when no poll has left the
    loop so far. *)
Definition canon (k : nat) : Watcher.State :=
  {| Watcher.waitTime := k * Watcher.pollInterval cfg;
     Watcher.previousResponseLength := Watcher.prevlen out k;
     Watcher.stableResponseCount := Watcher.streak out k;
     Watcher.responseText := "";
     Watcher.polls := k |}.

(** The variables when poll [k] leaves the loop by [exit repeat]. *)
Definition exit_state (k : nat) : Watcher.State :=
  {| Watcher.waitTime := k * Watcher.pollInterval cfg;
     Watcher.previousResponseLength := Watcher.prevlen out k;
     Watcher.stableResponseCount := S (Watcher.streak out k);
     Watcher.responseText := Watcher.sample out k;
     Watcher.polls := S k |}.

(** Poll [k] is stable and completes the required count. *)
Definition window (k : nat) : bool :=
  Watcher.stable out k
  && (Watcher.requiredStable cfg <=? S (Watcher.streak out k)).

(** The last [requiredStable] polls up to poll [k] each saw a non-zero
    length equal to that of the sample before. *)
Definition settled (k : nat) : Prop :=
  forall j, k + 1 - Watcher.requiredStable cfg <= j <= k ->
            1 <= j /\ 0 < Watcher.len out j
            /\ Watcher.len out j = Watcher.len out (j - 1).
End Canonical.

(** ** Scripted outputs *)

Definition nine : string := "123456789".

(** Texts of the lengths 0, 0, 5, 9, 9, 9. *)
Definition six_samples : list string := [""; ""; "hello"; nine; nine; nine].

(** Texts of the lengths 0, 3, 3, 3. *)
Definition four_samples : list string := [""; "abc"; "abc"; "abc"].

(** A text is shown once and the surface is empty from then on. *)
Definition vanishing : Watcher.Output := Watcher.feed ["partial"] "".

(** The length keeps changing during the 41 polls and the surface is empty
    at the read after them. *)
Definition flickering : Watcher.Output :=
  fun k => if k <? 41 then (if Nat.even k then Some "a" else Some "bb")
           else Some "".

(** ** Vocabulary of the further properties *)

(** What the script reads of an escaped prompt closed by its quote. *)
Definition read_escaped (s : string) : option (string * string) :=
  AppleScript.read_literal (escape_prompt s ++ String dquote "").

Definition is_sleep (e : Event) : bool :=
  match e with EvSleep _ => true | _ => false end.

(** The number of waits of the rate limiter in a trace. *)
Definition sleeps (tr : list (Z * Event)) : nat :=
  List.length (filter (fun te => is_sleep (snd te)) tr).

(** What the latest paste put into the chat input. *)
Fixpoint pasted (tr : list (Z * Event)) : option string :=
  match tr with
  | [] => None
  | (_, EvPaste content) :: _ => Some content
  | _ :: tr' => pasted tr'
  end.

(** The world in which [askChatGPT] starts its script: the rate limiter has
    been waited for and [lastRequestTime] is the time it is then. *)
Definition dispatched (customDelay : option Z) (w0 : World) : World :=
  let w2 := fst (waitForRateLimit customDelay w0) in
  {| clock := clock w2; lastRequestTime := clock w2;
     clipboard := clipboard w2; input_field := input_field w2;
     reads_done := reads_done w2; trace := trace w2 |}.

(** No comma in the text. *)
Fixpoint comma_free (s : string) : bool :=
  match s with
  | EmptyString => true
  | String c s' => negb (Ascii.eqb c ",") && comma_free s'
  end.

(** The conversations of a sidebar: its buttons other than "New chat",
    compared as the script compares them. *)
Definition titles (names : list string) : list string :=
  filter (fun buttonName =>
            negb (AppleScript.same_text buttonName "New chat")) names.

(** The text begins with white space. *)
Definition starts_blank (s : string) : bool :=
  match s with
  | EmptyString => false
  | String c _ => JsString.is_space c
  end.

(** The text ends with white space. *)
Fixpoint ends_blank (s : string) : bool :=
  match s with
  | EmptyString => false
  | String c EmptyString => JsString.is_space c
  | String _ s' => ends_blank s'
  end.

(** A title that trimming and splitting leave whole: not empty, no comma, no
    white space at either end. *)
Definition tidy (s : string) : bool :=
  negb (String.eqb s "") && comma_free s
  && negb (starts_blank s) && negb (ends_blank s).

(** The conversation id, if any, stays inside its literal. *)
Definition inside_literal (conversationId : option string) : bool :=
  match conversationId with
  | Some cid => plain cid
  | None => true
  end.

(** The application of [calm], except that no conversation button can be
    clicked. *)
Definition unselectable (out : Watcher.Output) : Env :=
  {| process_exists := inr "true";
     activate_error := None;
     system_events_error := None;
     conversation_button := fun _ => false;
     focus_error := None;
     paste_error := None;
     send_error := None;
     output := out;
     chat_buttons := Some [] |}.


(** * Properties *)

(** ** Strings and the generated script *)

Lemma read_literal_plain (a rest : string) :
  plain a = true ->
  AppleScript.read_literal (a ++ String dquote rest) = Some (a, rest).
Proof.
  induction a as [|c a IH]; intros H.
  - reflexivity.
  - cbn [plain] in H. apply andb_prop in H. destruct H as [Hc Ha].
    unfold plain_char in Hc. apply andb_prop in Hc. destruct Hc as [Hq Hb].
    cbn [String.append AppleScript.read_literal].
    destruct (Ascii.eqb c dquote); [discriminate|].
    destruct (Ascii.eqb c backslash); [discriminate|].
    rewrite (IH Ha). reflexivity.
Qed.

Lemma escape_prompt_cons (c : ascii) (p : string) :
  escape_prompt (String c p) =
  if Ascii.eqb c dquote then String backslash (String dquote (escape_prompt p))
  else if Ascii.eqb c LF then String backslash (String "n" (escape_prompt p))
  else String c (escape_prompt p).
Proof.
  unfold escape_prompt. cbn [JsString.replace_all].
  destruct (Ascii.eqb_spec c dquote) as [->|Hq].
  - reflexivity.
  - cbn [JsString.replace_all]. destruct (Ascii.eqb c LF); reflexivity.
Qed.

Lemma read_literal_escape_prompt (p rest : string) :
  no_backslash p = true ->
  AppleScript.read_literal (escape_prompt p ++ String dquote rest)
  = Some (p, rest).
Proof.
  induction p as [|c p IH]; intros H.
  - reflexivity.
  - cbn [no_backslash] in H. apply andb_prop in H. destruct H as [Hb Hp].
    rewrite escape_prompt_cons.
    destruct (Ascii.eqb_spec c dquote) as [->|Hq].
    + cbn [String.append AppleScript.read_literal].
      change (Ascii.eqb backslash dquote) with false.
      change (Ascii.eqb backslash backslash) with true.
      cbv iota. change (AppleScript.unescape dquote) with (Some dquote).
      rewrite (IH Hp). reflexivity.
    + destruct (Ascii.eqb_spec c LF) as [->|Hn].
      * cbn [String.append AppleScript.read_literal].
        change (Ascii.eqb backslash dquote) with false.
        change (Ascii.eqb backslash backslash) with true.
        cbv iota. change (AppleScript.unescape "n") with (Some LF).
        rewrite (IH Hp). reflexivity.
      * cbn [String.append AppleScript.read_literal].
        destruct (Ascii.eqb_spec c dquote); [contradiction|].
        destruct (Ascii.eqb c backslash); [discriminate|].
        rewrite (IH Hp). reflexivity.
Qed.

(** A prompt without a backslash reaches the script as it is. *)
Lemma thePrompt_of_verbatim (prompt : string) :
  no_backslash prompt = true -> thePrompt_of prompt = Some (prompt, "").
Proof.
  intros H. unfold thePrompt_of, literal_after, prompt_line.
  cbn [String.append strip_prefix str1].
  repeat (rewrite Ascii.eqb_refl; cbn [strip_prefix]).
  apply read_literal_escape_prompt, H.
Qed.

Lemma append_assoc (a b c : string) : (a ++ b) ++ c = a ++ (b ++ c).
Proof.
  induction a as [|x a IH]; cbn [String.append]; [reflexivity|].
  now rewrite IH.
Qed.

Lemma length_append (a b : string) :
  String.length (a ++ b) = String.length a + String.length b.
Proof.
  induction a as [|x a IH]; cbn [String.append String.length]; [reflexivity|].
  now rewrite IH.
Qed.

Lemma plain_no_backslash (a : string) : plain a = true -> no_backslash a = true.
Proof.
  induction a as [|c a IH]; [reflexivity|].
  cbn [plain no_backslash]. unfold plain_char. intros H.
  apply andb_prop in H. destruct H as [Hc Ha].
  apply andb_prop in Hc. destruct Hc as [_ Hb].
  now rewrite Hb, (IH Ha).
Qed.

Lemma no_backslash_app (a b : string) :
  no_backslash a = true -> no_backslash b = true ->
  no_backslash (a ++ b) = true.
Proof.
  induction a as [|c a IH]; cbn [String.append no_backslash]; [auto|].
  intros H Hb. apply andb_prop in H. destruct H as [Hc Ha].
  now rewrite Hc, (IH Ha Hb).
Qed.

(** C6: the prompt does not always reach the script verbatim.  The escaping
    of [askChatGPT] rewrites the double quote and the newline and leaves the
    backslash alone, although the backslash is the escape character of the
    literal it is written into.  On the prompt [a\tb] the script holds [a],
    a tab, [b]; a newline and the two characters backslash, [n] give the same
    script text, so that no reading of the script can return both; and a
    prompt that is one backslash leaves the literal without its closing
    quote. *)
Theorem escape_prompt_misses_backslash :
  thePrompt_of backslash_t_prompt = Some (String "a" (String TAB "b"), "")
  /\ String "a" (String TAB "b") <> backslash_t_prompt
  /\ escape_prompt (str1 LF) = escape_prompt (String backslash "n")
  /\ str1 LF <> String backslash "n"
  /\ (~ exists decode : string -> string,
         forall prompt, decode (escape_prompt prompt) = prompt)
  /\ thePrompt_of (str1 backslash) = None.
Proof.
  repeat split; try reflexivity; try discriminate.
  intros [decode H].
  pose proof (H (str1 LF)) as H1.
  pose proof (H (String backslash "n")) as H2.
  change (escape_prompt (String backslash "n")) with (escape_prompt (str1 LF)) in H2.
  rewrite H1 in H2. discriminate H2.
Qed.

(** C9: the conversation identifier is written into the script unescaped.
    For an identifier that holds a double quote after a part [a] free of
    quotes and backslashes, the button the script names is [a] and not the
    identifier, the rest of the identifier falls outside the literal, and the
    script no longer has the shape of its template; the same text sent as a
    prompt is read back whole. *)
Theorem conversation_id_not_escaped (a b prompt : string) :
  plain a = true ->
  no_backslash b = true ->
  let conversationId := a ++ String dquote b in
  click_button_target conversationId
    = Some (a, b ++ String dquote click_suffix)
  /\ a <> conversationId
  /\ compile_ask_script prompt (Some conversationId) = None
  /\ thePrompt_of conversationId = Some (conversationId, "").
Proof.
  intros Ha Hb conversationId.
  assert (Htarget : click_button_target conversationId
                    = Some (a, b ++ String dquote click_suffix)).
  { unfold click_button_target, literal_after, click_line, conversationId.
    cbn [String.append strip_prefix str1].
    repeat (rewrite Ascii.eqb_refl; cbn [strip_prefix]).
    rewrite append_assoc. cbn [String.append].
    apply read_literal_plain, Ha. }
  repeat split.
  - exact Htarget.
  - intros E. apply (f_equal String.length) in E.
    unfold conversationId in E. rewrite length_append in E.
    cbn [String.length] in E. lia.
  - unfold compile_ask_script. rewrite Htarget.
    destruct (thePrompt_of prompt) as [[p [|c r]]|]; try reflexivity.
    destruct (String.eqb_spec (b ++ String dquote click_suffix) click_suffix)
      as [E|_]; [|reflexivity].
    apply (f_equal String.length) in E. rewrite length_append in E.
    cbn [String.length] in E. lia.
  - apply thePrompt_of_verbatim. unfold conversationId.
    apply no_backslash_app; [apply plain_no_backslash, Ha|].
    cbn [no_backslash]. now rewrite Hb.
Qed.

Lemma conversation_id_not_escaped_witness :
  plain "A" = true /\ no_backslash "B" = true
  /\ click_button_target (String "A" (String dquote "B"))
       = Some ("A", String "B" (String dquote click_suffix))
  /\ "A" <> String "A" (String dquote "B").
Proof.
  destruct (@conversation_id_not_escaped "A" "B" "hello" eq_refl eq_refl)
    as (H1 & H2 & _).
  split; [reflexivity|]. split; [reflexivity|].
  split; [exact H1 | exact H2].
Defined.

(** ** Splitting *)

Lemma split_scan_nonempty (sep s : string) (skip : nat) (cur : string) :
  1 <= List.length (JsString.split_scan sep s skip cur).
Proof.
  revert skip cur. induction s as [|a s IH]; intros skip cur.
  - cbn. lia.
  - cbn [JsString.split_scan]. destruct skip as [|k].
    + destruct (JsString.starts_with sep (String a s)).
      * cbn [List.length]. lia.
      * apply IH.
    + apply IH.
Qed.

Lemma split_nonempty (sep s : string) :
  sep <> "" -> 1 <= List.length (JsString.split sep s).
Proof.
  intros Hsep. destruct sep as [|c sep]; [congruence|].
  apply split_scan_nonempty.
Qed.

(** ** The monad *)

Lemma bind_inr {A B} (m : M A) (k : A -> M B) (w w' : World) (a : A) :
  m w = (w', inr a) -> bind m k w = k a w'.
Proof. intros H. unfold bind. now rewrite H. Qed.

Lemma bind_inl {A B} (m : M A) (k : A -> M B) (w w' : World) (e : string) :
  m w = (w', inl e) -> bind m k w = (w', inl e).
Proof. intros H. unfold bind. now rewrite H. Qed.

Arguments bind_inr {A B m} k {w w' a} _.
Arguments bind_inl {A B m} k {w w' e} _.

(** ** getConversations and the handler *)

Lemma getConversations_cases (env : Env) (w : World) :
  (exists w' e, getConversations env w = (w', inl e)
                /\ checkChatGPTAccess env w = (w', inl e))
  \/ (exists w' l, getConversations env w = (w', inr l)
                   /\ 1 <= List.length l).
Proof.
  unfold getConversations.
  destruct (checkChatGPTAccess env w) as [w0 [e|b]] eqn:Hacc.
  - left. exists w0, e. split; [apply bind_inl, Hacc | reflexivity].
  - right. rewrite (bind_inr _ Hacc). unfold try_catch, list_script, bind, activate, enter_system_events,
      fail_if, log, delay, ret, throw.
    destruct (activate_error env); [eexists; eexists; split; [reflexivity|cbn; lia]|].
    destruct (system_events_error env);
      [eexists; eexists; split; [reflexivity|cbn; lia]|].
    eexists; eexists; split; [reflexivity|].
    apply split_nonempty. discriminate.
Qed.

Lemma is_str_exclusive (v : JsVal) :
  is_str "get_conversations" v = true -> is_str "ask" v = false.
Proof.
  destruct v; cbn [is_str]; try discriminate.
  destruct (String.eqb_spec s "get_conversations") as [->|]; [|discriminate].
  reflexivity.
Qed.

Lemma found_text_not_sentinel (l : list string) :
  1 <= List.length l -> found_text l <> no_conversations.
Proof.
  intros H. unfold found_text.
  destruct (Nat.ltb_spec 0 (List.length l)); [|lia].
  cbn [String.append]. unfold no_conversations. discriminate.
Qed.

(** C10: splitting a string on ", " gives at least one piece, the empty
    string included, so that [getConversations] never returns an empty list
    and the handler never answers a [get_conversations] request with the "No
    conversations found in ChatGPT." text. *)
Theorem no_conversations_unreachable :
  (forall s, 1 <= List.length (JsString.split ", " s))
  /\ JsString.split ", " "" = [""]
  /\ (forall env w w' l,
        getConversations env w = (w', inr l) -> 1 <= List.length l)
  /\ (forall env name args w,
        is_str "get_conversations" (get "operation" args) = true ->
        text (snd (call_tool env name args w)) <> no_conversations).
Proof.
  split; [|split; [|split]].
  - intros s. apply split_nonempty. discriminate.
  - reflexivity.
  - intros env w w' l H.
    destruct (getConversations_cases env w) as [(w1 & e & H1 & _)|(w1 & l1 & H1 & Hl)];
      rewrite H1 in H; inversion H; subst; exact Hl.
  - intros env name args w Hop.
    unfold call_tool, dispatch.
    destruct (truthy args); cbn [negb]; [|cbn; discriminate].
    destruct (String.eqb name "chatgpt"); [|cbn; discriminate].
    destruct (isChatGPTArgs args); cbn [negb]; [|cbn; discriminate].
    rewrite (is_str_exclusive _ Hop), Hop.
    destruct (getConversations_cases env w) as [(w1 & e & H1 & _)|(w1 & l1 & H1 & Hl)].
    + rewrite (bind_inl _ H1). cbn. discriminate.
    + rewrite (bind_inr _ H1). cbn [ret snd text].
      apply found_text_not_sentinel, Hl.
Qed.

Lemma no_conversations_unreachable_witness :
  is_str "get_conversations" (get "operation" list_request) = true
  /\ text (snd (call_tool (calm settles []) "chatgpt" list_request
                  (world_at 0 0 "")))
     <> no_conversations.
Proof.
  split; [reflexivity|].
  apply (proj2 (proj2 (proj2 no_conversations_unreachable))). reflexivity.
Defined.

(** C8: once the application is reachable, a failure of the enumeration,
    be it inside the script (its [on error] branch) or of the script run as a
    whole, makes [getConversations] return a list of exactly one element that
    says so; nothing is thrown, and the handler answers without its error
    flag. *)
Theorem getConversations_failure_is_one_element
  (env : Env) (w w0 : World) (b : bool) :
  checkChatGPTAccess env w = (w0, inr b) ->
  chat_buttons env = None \/ activate_error env <> None
    \/ system_events_error env <> None ->
  exists w' msg,
    getConversations env w = (w', inr [msg])
    /\ (msg = unable_to_retrieve \/ msg = error_retrieving)
    /\ snd (call_tool env "chatgpt" list_request w)
       = {| text := "Found 1 conversation(s):" ++ str1 LF ++ str1 LF ++ msg;
            isError := false |}.
Proof.
  intros Hacc Hfail.
  assert (Hget : exists w' msg,
             getConversations env w = (w', inr [msg])
             /\ (msg = unable_to_retrieve \/ msg = error_retrieving)).
  { unfold getConversations. rewrite (bind_inr _ Hacc).
    unfold try_catch, list_script, bind, activate, enter_system_events,
      fail_if, log, delay, ret, throw.
    destruct (activate_error env) as [e1|].
    { eexists; exists error_retrieving. split; [reflexivity | now right]. }
    destruct (system_events_error env) as [e2|].
    { eexists; exists error_retrieving. split; [reflexivity | now right]. }
    destruct (chat_buttons env) as [names|].
    { destruct Hfail as [H|[H|H]]; congruence. }
    eexists; exists unable_to_retrieve. split; [reflexivity | now left]. }
  destruct Hget as (w' & msg & Hg & Hm).
  exists w', msg. split; [exact Hg|]. split; [exact Hm|].
  unfold call_tool, dispatch.
  change (truthy list_request) with true.
  change (String.eqb "chatgpt" "chatgpt") with true.
  change (isChatGPTArgs list_request) with true.
  change (is_str "ask" (get "operation" list_request)) with false.
  change (is_str "get_conversations" (get "operation" list_request)) with true.
  cbn [negb]. cbv iota.
  rewrite (bind_inr _ Hg). reflexivity.
Qed.

Lemma getConversations_failure_is_one_element_witness :
  checkChatGPTAccess unlistable (world_at 0 0 "") = (world_at 0 0 "", inr true)
  /\ exists w' msg,
       getConversations unlistable (world_at 0 0 "") = (w', inr [msg])
       /\ (msg = unable_to_retrieve \/ msg = error_retrieving).
Proof.
  split; [reflexivity|].
  destruct (@getConversations_failure_is_one_element unlistable
              (world_at 0 0 "") (world_at 0 0 "") true eq_refl
              (or_introl eq_refl)) as (w' & msg & H1 & H2 & _).
  exists w', msg. split; assumption.
Defined.

(** ** Argument validation *)

Lemma isChatGPTArgs_ask_needs_prompt (args : JsVal) :
  is_str "ask" (get "operation" args) = true ->
  truthy (get "prompt" args) = false ->
  isChatGPTArgs args = false.
Proof.
  intros Hop Hp. unfold isChatGPTArgs.
  destruct (is_object args); [|reflexivity]. cbn [negb].
  rewrite Hop, Hp. cbn [orb negb andb].
  destruct (truthy (get "operation" args)); reflexivity.
Qed.

Lemma isChatGPTArgs_ask_has_prompt (args : JsVal) :
  isChatGPTArgs args = true ->
  is_str "ask" (get "operation" args) = true ->
  exists s, get "prompt" args = JStr s /\ s <> "".
Proof.
  unfold isChatGPTArgs. intros H Hop.
  destruct (is_object args); [|discriminate]. cbn [negb] in H.
  rewrite Hop in H. cbn [orb negb andb] in H.
  destruct (truthy (get "operation" args)); [|discriminate].
  cbn [negb] in H.
  destruct (truthy (get "prompt" args)) eqn:Hp; [|discriminate].
  cbn [negb andb] in H.
  destruct (get "prompt" args) as [| | | |s|]; try discriminate.
  exists s. split; [reflexivity|].
  intros ->. discriminate Hp.
Qed.

(** C7: an [ask] request whose prompt is missing or the empty string (or
    any other falsy value) does not pass [isChatGPTArgs]; the handler answers
    with an error and leaves the world as it found it: no wait of the rate
    limiter, no change of [lastRequestTime], no access to the clipboard, no
    event.  A request that passes and asks has a non-empty string as its
    prompt, while a [get_conversations] request passes without one. *)
Theorem ask_without_prompt_rejected
  (env : Env) (name : string) (args : JsVal) (w : World) :
  is_str "ask" (get "operation" args) = true ->
  truthy (get "prompt" args) = false ->
  isChatGPTArgs args = false
  /\ (exists r, call_tool env name args w = (w, r)
                /\ isError r = true
                /\ (name = "chatgpt" ->
                    text r = "Error: Invalid arguments for ChatGPT tool"))
  /\ (forall args',
        isChatGPTArgs args' = true ->
        is_str "ask" (get "operation" args') = true ->
        exists s, get "prompt" args' = JStr s /\ s <> "")
  /\ isChatGPTArgs list_request = true.
Proof.
  intros Hop Hp.
  pose proof (isChatGPTArgs_ask_needs_prompt args Hop Hp) as Hinvalid.
  split; [exact Hinvalid|]. split; [|split].
  - unfold call_tool, dispatch. rewrite Hinvalid.
    destruct (truthy args) eqn:Hargs; cbn [negb].
    + destruct (String.eqb_spec name "chatgpt") as [->|Hname].
      * eexists. split; [reflexivity|]. split; reflexivity.
      * eexists. split; [reflexivity|]. split; [reflexivity|].
        intros E. contradiction.
    + destruct args; cbn in Hop; try discriminate Hop. discriminate Hargs.
  - exact isChatGPTArgs_ask_has_prompt.
  - reflexivity.
Qed.

Lemma ask_without_prompt_rejected_witness :
  is_str "ask" (get "operation" (ask_request (JStr ""))) = true
  /\ truthy (get "prompt" (ask_request (JStr ""))) = false
  /\ exists r,
       call_tool (calm settles []) "chatgpt" (ask_request (JStr ""))
         (world_at 5 0 "mine") = (world_at 5 0 "mine", r)
       /\ isError r = true.
Proof.
  split; [reflexivity|]. split; [reflexivity|].
  destruct (@ask_without_prompt_rejected (calm settles []) "chatgpt"
              (ask_request (JStr "")) (world_at 5 0 "mine") eq_refl eq_refl)
    as (_ & (r & H1 & H2 & _) & _).
  exists r. split; assumption.
Defined.

(** ** The rate limiter *)

(** With an override other than 0, or none, the limiter waits for what is
    left of the interval and not at all when the interval has passed. *)
Lemma waitForRateLimit_spec (customDelay : option Z) (w : World) :
  customDelay <> Some 0%Z ->
  let interval := match customDelay with
                  | Some d => d
                  | None => RATE_LIMIT_DELAY
                  end in
  let elapsed := (clock w - lastRequestTime w)%Z in
  waitForRateLimit customDelay w =
  if (elapsed <? interval)%Z then sleep (interval - elapsed) w
  else (w, inr tt).
Proof.
  intros Hd. unfold waitForRateLimit, bind, Date_now, get_lastRequestTime,
    or_default, ret.
  destruct customDelay as [d|].
  - destruct (Z.eqb_spec d 0) as [->|_]; [congruence|].
    destruct (_ <? _)%Z; reflexivity.
  - destruct (_ <? _)%Z; reflexivity.
Qed.

(** Right after a dispatch the limiter holds the caller for the whole
    interval it uses. *)
Lemma waitForRateLimit_back_to_back (customDelay : option Z) (w : World) :
  clock w = lastRequestTime w ->
  (0 < or_default customDelay RATE_LIMIT_DELAY)%Z ->
  clock (fst (waitForRateLimit customDelay w))
  = (clock w + or_default customDelay RATE_LIMIT_DELAY)%Z.
Proof.
  intros Hnow Hpos.
  unfold waitForRateLimit, bind, Date_now, get_lastRequestTime, sleep, ret.
  rewrite Hnow, Z.sub_diag.
  destruct (Z.ltb_spec 0 (or_default customDelay RATE_LIMIT_DELAY)); [|lia].
  cbn [fst advance record_event clock]. rewrite Hnow. lia.
Qed.

(** C3: an override of 0 is not used as the interval.  [customDelay ||
    RATE_LIMIT_DELAY] takes the default for it, so that the limiter behaves on
    [delay_ms = 0] as it does without an override; right after a dispatch it
    suspends the caller for 120000 ms, where an interval of 0 would let it
    proceed at once. *)
Theorem waitForRateLimit_zero_override :
  (forall w, waitForRateLimit (Some 0%Z) w = waitForRateLimit None w)
  /\ or_default (Some 0%Z) RATE_LIMIT_DELAY = 120000%Z
  /\ waitForRateLimit (Some 0%Z) (world_at 500 500 "")
     = ({| clock := 120500; lastRequestTime := 500; clipboard := "";
           input_field := ""; reads_done := 0;
           trace := [(500%Z, EvSleep 120000)] |}, inr tt).
Proof.
  split; [|split]; reflexivity.
Qed.

(** ** Input delivery *)

Lemma ms_of_pasteDelay (n : nat) :
  ms_of_seconds (pasteDelay n) = (Z.of_nat n + 1000)%Z.
Proof.
  unfold ms_of_seconds, pasteDelay.
  assert (E : ((inject_Z (Z.of_nat n) / 1000 + 1) * 1000
               == inject_Z (Z.of_nat n + 1000))%Q).
  { rewrite inject_Z_plus. change (inject_Z 1000) with 1000%Q. field. }
  rewrite E. apply Qfloor_Z.
Qed.





Lemma compile_ask_script_verbatim (prompt : string) (c : option string)
  (sc : AskScript) :
  compile_ask_script prompt c = Some sc ->
  no_backslash prompt = true ->
  thePrompt sc = prompt.
Proof.
  unfold compile_ask_script. intros H Hp.
  rewrite (thePrompt_of_verbatim _ Hp) in H.
  destruct c as [cid|].
  - destruct (click_button_target cid) as [[t rest]|]; [|discriminate].
    destruct (String.eqb rest click_suffix); [|discriminate].
    inversion H. reflexivity.
  - inversion H. reflexivity.
Qed.




(** Where the restoring statement of the script is reached and where it is
    not: the clipboard is as the script found it when the focus, paste and
    send steps all succeed, and when the script stops before its clipboard
    steps; when one of the three steps fails the script stops there, after the
    prompt was written and before the restoring statement. *)
Lemma clipboard_restored_when_delivery_succeeds
  (env : Env) (sc : AskScript) (w : World) :
  let (w', res) := ask_script env sc w in
  if reaches_clipboard env && negb (delivery_succeeds env)
  then clipboard w' = thePrompt sc /\ is_error res = true
  else clipboard w' = clipboard w.
Proof.
  unfold reaches_clipboard, delivery_succeeds.
  unfold ask_script, activate, enter_system_events, try_, try_catch,
    click_conversation, get_clipboard, set_clipboard, focus_input, paste,
    send, wait_for_response, fail_if, log, delay, bind, ret, throw.
  destruct (activate_error env); [reflexivity|].
  destruct (system_events_error env); [reflexivity|].
  destruct (select_target sc) as [name|];
    [destruct (conversation_button env name)|].
  all: destruct (focus_error env); [cbn; split; reflexivity|].
  all: destruct (paste_error env); [cbn; split; reflexivity|].
  all: destruct (send_error env); [cbn; split; reflexivity|].
  all: cbn;
    match goal with
    | |- context [Watcher.awaitCompletion ?c ?o] =>
        destruct (Watcher.awaitCompletion c o)
    end; reflexivity.
Qed.

(** C2: the script saves the clipboard and restores it, and misses the
    restoration on its error path.  When clicking the input field fails, the
    script stops between its "Save original clipboard content" and "Restore
    original clipboard content" steps: the call of [askChatGPT] with the
    prompt [hello] ends in an error and the clipboard, which held [mine],
    holds [hello]. *)
Theorem clipboard_not_restored_on_focus_failure :
  askChatGPT (unfocusable settles) "hello" None None
    (world_at 1000000 0 "mine")
  = ({| clock := 1001000; lastRequestTime := 1000000; clipboard := "hello";
        input_field := ""; reads_done := 0;
        trace := [(1001000%Z, EvSetClipboard "hello");
                  (1000000%Z, EvActivate)] |},
     inl "Failed to get response from ChatGPT: Can't get text field 1")
  /\ "hello" <> "mine".
Proof.
  split; [vm_compute; reflexivity | discriminate].
Qed.

(** ** The watcher *)

Section WatcherFacts.
Import Watcher.
Variable cfg : Config.
Variable out : Output.

Lemma stable_spec (j : nat) :
  stable out j = true <->
  1 <= j /\ 0 < len out j /\ len out j = len out (j - 1).
Proof.
  unfold stable. rewrite andb_true_iff, Nat.ltb_lt, Nat.eqb_eq.
  destruct j as [|i]; cbn [prevlen].
  - split; [intros [H1 H2]; lia | intros (H & _); lia].
  - replace (S i - 1) with i by lia. split; [intros [H1 H2]|intros (_ & H1 & H2)];
      repeat split; auto; lia.
Qed.

Lemma stable_0 : stable out 0 = false.
Proof.
  destruct (stable out 0) eqn:E; [|reflexivity].
  apply stable_spec in E. lia.
Qed.

Lemma streak_S (k : nat) :
  streak out (S k) = if stable out k then S (streak out k) else 0.
Proof. reflexivity. Qed.

Lemma streak_window (k m : nat) :
  1 <= m ->
  (m <= streak out (S k) <->
   forall j, S k - m <= j <= k -> stable out j = true).
Proof.
  revert m. induction k as [|k IH]; intros m Hm.
  - rewrite streak_S, stable_0. split.
    + cbn [streak]. lia.
    + intros H. specialize (H 0). rewrite stable_0 in H.
      assert (false = true) by (apply H; lia). discriminate.
  - rewrite streak_S. split.
    + intros H j Hj.
      destruct (stable out (S k)) eqn:Es; [|lia].
      destruct (Nat.eq_dec j (S k)) as [->|Hne]; [exact Es|].
      apply (proj1 (IH (m - 1) ltac:(lia))); lia.
    + intros H.
      rewrite (H (S k)) by lia.
      destruct (Nat.eq_dec m 1) as [->|Hne]; [lia|].
      assert (m - 1 <= streak out (S k)); [|lia].
      apply (proj2 (IH (m - 1) ltac:(lia))).
      intros j Hj. apply H. lia.
Qed.

Lemma window_settled (k : nat) :
  1 <= requiredStable cfg ->
  (window cfg out k = true <-> settled cfg out k).
Proof.
  intros Hreq. unfold window, settled.
  assert (E : stable out k && (requiredStable cfg <=? S (streak out k)) = true
              <-> requiredStable cfg <= streak out (S k)).
  { rewrite streak_S, andb_true_iff, Nat.leb_le.
    destruct (stable out k); split; try lia; tauto. }
  rewrite E, (streak_window k Hreq).
  replace (k + 1 - requiredStable cfg) with (S k - requiredStable cfg) by lia.
  split; intros H j Hj; [apply stable_spec | apply stable_spec]; apply H, Hj.
Qed.

Lemma poll_canon (k : nat) :
  poll cfg (sample out k) (canon cfg out k) =
  if window cfg out k then ExitRepeat (exit_state cfg out k)
  else NextPoll (canon cfg out (S k)).
Proof.
  unfold poll, window, stable, canon, exit_state.
  cbn [previousResponseLength stableResponseCount waitTime responseText polls].
  fold (len out k).
  rewrite streak_S. unfold stable.
  replace (S k * pollInterval cfg) with (k * pollInterval cfg + pollInterval cfg)
    by lia.
  destruct ((0 <? len out k) && (len out k =? prevlen out k)); cbn [andb].
  - destruct (requiredStable cfg <=? S (streak out k)); reflexivity.
  - reflexivity.
Qed.

Lemma run_canon (n k : nat) :
  run cfg (S n) out (canon cfg out k) =
  if maxWaitTime cfg <? k * pollInterval cfg then TimedOut (canon cfg out k)
  else if window cfg out k then Exited (exit_state cfg out k)
       else run cfg n out (canon cfg out (S k)).
Proof.
  cbn [run]. change (waitTime (canon cfg out k)) with (k * pollInterval cfg).
  change (polls (canon cfg out k)) with k.
  rewrite poll_canon.
  destruct (maxWaitTime cfg <? k * pollInterval cfg); [reflexivity|].
  destruct (window cfg out k); reflexivity.
Qed.

Lemma start_canon : start = canon cfg out 0.
Proof. reflexivity. Qed.

(** What leaving by [exit repeat] tells. *)
Lemma run_exited (n k : nat) (st : State) :
  run cfg n out (canon cfg out k) = Exited st ->
  exists k', k <= k' /\ st = exit_state cfg out k'
             /\ window cfg out k' = true
             /\ k' * pollInterval cfg <= maxWaitTime cfg
             /\ forall j, k <= j < k' -> window cfg out j = false.
Proof.
  revert k. induction n as [|n IH]; intros k H; [discriminate H|].
  rewrite run_canon in H.
  destruct (Nat.ltb_spec (maxWaitTime cfg) (k * pollInterval cfg)) as [|Ht];
    [discriminate H|].
  destruct (window cfg out k) eqn:Ew.
  - inversion H; subst. exists k. repeat split; auto. intros j Hj. lia.
  - destruct (IH _ H) as (k' & Hk & Hst & Hw & Htime & Hmin).
    exists k'. repeat split; auto; [lia|].
    intros j Hj. destruct (Nat.eq_dec j k) as [->|]; [exact Ew|].
    apply Hmin. lia.
Qed.

(** What leaving by the loop condition tells. *)
Lemma run_timed_out (n k : nat) (st : State) :
  run cfg n out (canon cfg out k) = TimedOut st ->
  exists k', k <= k' /\ st = canon cfg out k'
             /\ maxWaitTime cfg < k' * pollInterval cfg
             /\ (forall j, k <= j < k' ->
                   j * pollInterval cfg <= maxWaitTime cfg).
Proof.
  revert k. induction n as [|n IH]; intros k H; [discriminate H|].
  rewrite run_canon in H.
  destruct (Nat.ltb_spec (maxWaitTime cfg) (k * pollInterval cfg)) as [Ht|Ht].
  - inversion H; subst. exists k. repeat split; auto. intros j Hj. lia.
  - destruct (window cfg out k); [discriminate H|].
    destruct (IH _ H) as (k' & Hk & Hst & Htime & Hbefore).
    exists k'. repeat split; auto; [lia|].
    intros j Hj. destruct (Nat.eq_dec j k) as [->|]; [exact Ht|].
    apply Hbefore. lia.
Qed.

(** What still polling tells. *)
Lemma run_polling (n k : nat) (st : State) :
  run cfg n out (canon cfg out k) = Polling st ->
  st = canon cfg out (k + n)
  /\ (0 < n -> (k + n - 1) * pollInterval cfg <= maxWaitTime cfg).
Proof.
  revert k. induction n as [|n IH]; intros k H.
  - cbn in H. inversion H. rewrite Nat.add_0_r. split; [reflexivity|lia].
  - rewrite run_canon in H.
    destruct (Nat.ltb_spec (maxWaitTime cfg) (k * pollInterval cfg)) as [|Ht];
      [discriminate H|].
    destruct (window cfg out k); [discriminate H|].
    destruct (IH _ H) as [Hst Htime].
    replace (k + S n) with (S k + n) by lia. split; [exact Hst|].
    intros _. destruct n as [|n].
    + replace (S k + 0 - 1) with k by lia. exact Ht.
    + apply Htime. lia.
Qed.

(** The loop ends when the poll interval is positive. *)
Lemma loop_total :
  0 < pollInterval cfg -> forall st, loop cfg out <> Polling st.
Proof.
  intros Hp st H. unfold loop in H. rewrite start_canon in H.
  apply run_polling in H. destruct H as [_ H].
  unfold fuel in H. specialize (H ltac:(lia)).
  pose proof (Nat.mul_succ_div_gt (maxWaitTime cfg) (pollInterval cfg)
                ltac:(lia)) as Hdiv.
  replace (0 + (maxWaitTime cfg / pollInterval cfg + 2) - 1)
    with (S (maxWaitTime cfg / pollInterval cfg)) in H by lia.
  lia.
Qed.

(** The loop leaves at a settled poll that comes in time, or before. *)
Lemma run_reaches (d k n : nat) :
  window cfg out (k + d) = true ->
  (k + d) * pollInterval cfg <= maxWaitTime cfg ->
  exists k', k <= k' <= k + d
             /\ run cfg (S d + n) out (canon cfg out k)
                = Exited (exit_state cfg out k').
Proof.
  revert k. induction d as [|d IH]; intros k Hw Ht.
  - rewrite Nat.add_0_r in *. exists k. split; [lia|].
    cbn [Nat.add]. rewrite run_canon.
    destruct (Nat.ltb_spec (maxWaitTime cfg) (k * pollInterval cfg)); [lia|].
    now rewrite Hw.
  - replace (k + S d) with (S k + d) in * by lia.
    change (S (S d) + n) with (S (S d + n)). rewrite run_canon.
    destruct (Nat.ltb_spec (maxWaitTime cfg) (k * pollInterval cfg)) as [Hlt|_].
    { assert (k * pollInterval cfg <= (S k + d) * pollInterval cfg)
        by (apply Nat.mul_le_mono_r; lia). lia. }
    destruct (window cfg out k) eqn:Ew.
    + exists k. split; [lia|reflexivity].
    + destruct (IH (S k) Hw Ht) as (k' & Hk & Hrun).
      exists k'. split; [lia|exact Hrun].
Qed.

End WatcherFacts.

Lemma settled_requires (cfg : Watcher.Config) (out : Watcher.Output) (k : nat) :
  settled cfg out k -> Watcher.requiredStable cfg <= k.
Proof.
  intros H. destruct (Nat.le_gt_cases (Watcher.requiredStable cfg) k) as [|Hlt];
    [assumption|].
  destruct (H 0 ltac:(lia)) as [H0 _]. lia.
Qed.

Lemma awaitCompletion_exited (cfg : Watcher.Config) (out : Watcher.Output)
  (k : nat) :
  Watcher.loop cfg out = Watcher.Exited (exit_state cfg out k) ->
  k * Watcher.pollInterval cfg <= Watcher.maxWaitTime cfg ->
  Watcher.awaitCompletion cfg out
  = Some {| Watcher.response := Watcher.sample out k;
            Watcher.reads := S k;
            Watcher.waited := k * Watcher.pollInterval cfg |}.
Proof.
  intros H Ht. unfold Watcher.awaitCompletion. rewrite H.
  unfold Watcher.conclude, exit_state.
  cbn [Watcher.waitTime Watcher.previousResponseLength Watcher.polls
       Watcher.responseText].
  destruct (Nat.ltb_spec (Watcher.maxWaitTime cfg)
              (k * Watcher.pollInterval cfg)); [lia|].
  reflexivity.
Qed.

(** C1 (as the code has it): the watcher leaves its loop by [exit repeat]
    at poll [k], and returns the text read at that poll, exactly when [k] is
    the first poll at which the last [requiredStable] polls each saw a
    non-zero length equal to that of the sample before, and that poll comes
    within [maxWaitTime]; the counter is back to 0 after a poll whose length
    differs from the previous one.  Three equal comparisons need four equal
    samples: on texts of lengths 0, 0, 5, 9, 9, 9 the script is still polling
    after the third 9, with its counter at 2, whatever is read later, and it
    is done at a fourth 9; on lengths 0, 3, 3, 3 it is still polling, and it
    is done at a fourth 3, the third poll after the first 3, with the text of
    length 3. *)
Theorem watcher_done_exactly :
  (forall cfg out,
     0 < Watcher.pollInterval cfg ->
     1 <= Watcher.requiredStable cfg ->
     (forall st, Watcher.loop cfg out = Watcher.Exited st ->
        exists k,
          Watcher.polls st = S k
          /\ Watcher.awaitCompletion cfg out
             = Some {| Watcher.response := Watcher.sample out k;
                       Watcher.reads := S k;
                       Watcher.waited := k * Watcher.pollInterval cfg |}
          /\ Watcher.requiredStable cfg <= k
          /\ k * Watcher.pollInterval cfg <= Watcher.maxWaitTime cfg
          /\ settled cfg out k
          /\ forall j, j < k -> ~ settled cfg out j)
     /\ (forall k,
           settled cfg out k ->
           k * Watcher.pollInterval cfg <= Watcher.maxWaitTime cfg ->
           exists st, Watcher.loop cfg out = Watcher.Exited st)
     /\ (forall k,
           Watcher.len out k <> Watcher.prevlen out k ->
           Watcher.stableResponseCount (canon cfg out (S k)) = 0))
  /\ (forall rest,
        Watcher.run Watcher.script_config 6 (Watcher.feed six_samples rest)
          Watcher.start
        = Watcher.Polling
            {| Watcher.waitTime := 18; Watcher.previousResponseLength := 9;
               Watcher.stableResponseCount := 2; Watcher.responseText := "";
               Watcher.polls := 6 |})
  /\ (forall rest,
        Watcher.awaitCompletion Watcher.script_config
          (Watcher.feed (six_samples ++ [nine])%list rest)
        = Some {| Watcher.response := nine; Watcher.reads := 7;
                  Watcher.waited := 18 |})
  /\ (forall rest,
        Watcher.run Watcher.script_config 4 (Watcher.feed four_samples rest)
          Watcher.start
        = Watcher.Polling
            {| Watcher.waitTime := 12; Watcher.previousResponseLength := 3;
               Watcher.stableResponseCount := 2; Watcher.responseText := "";
               Watcher.polls := 4 |})
  /\ (forall rest,
        Watcher.awaitCompletion Watcher.script_config
          (Watcher.feed (four_samples ++ ["abc"])%list rest)
        = Some {| Watcher.response := "abc"; Watcher.reads := 5;
                  Watcher.waited := 12 |}).
Proof.
  split; [|repeat split; intros rest; reflexivity].
  intros cfg out Hp Hreq. split; [|split].
  - intros st H. unfold Watcher.loop in H.
    rewrite (start_canon cfg out) in H.
    destruct (run_exited _ _ _ _ H) as (k & _ & Hst & Hw & Ht & Hmin).
    subst st. exists k. split; [reflexivity|]. split.
    { apply awaitCompletion_exited; [|exact Ht].
      unfold Watcher.loop. rewrite (start_canon cfg out). exact H. }
    assert (Hs : settled cfg out k) by (apply window_settled; assumption).
    split; [exact (settled_requires Hs)|]. split; [exact Ht|].
    split; [exact Hs|].
    intros j Hj Hsj. apply window_settled in Hsj; [|assumption].
    rewrite (Hmin j) in Hsj by lia. discriminate.
  - intros k Hs Ht. apply window_settled in Hs; [|assumption].
    assert (Hk : k <= Watcher.maxWaitTime cfg / Watcher.pollInterval cfg).
    { apply Nat.div_le_lower_bound; lia. }
    destruct (@run_reaches cfg out k 0
                (Watcher.maxWaitTime cfg / Watcher.pollInterval cfg + 1 - k)
                Hs Ht) as (k' & _ & Hrun).
    exists (exit_state cfg out k'). unfold Watcher.loop, Watcher.fuel.
    rewrite (start_canon cfg out).
    replace (Watcher.maxWaitTime cfg / Watcher.pollInterval cfg + 2)
      with (S k + (Watcher.maxWaitTime cfg / Watcher.pollInterval cfg + 1 - k))
      by lia.
    exact Hrun.
  - intros k Hk. cbn [canon Watcher.stableResponseCount].
    rewrite streak_S. unfold Watcher.stable.
    destruct (Nat.eqb_spec (Watcher.len out k) (Watcher.prevlen out k));
      [contradiction|].
    now rewrite andb_false_r.
Qed.

Lemma watcher_done_exactly_witness :
  0 < Watcher.pollInterval Watcher.script_config
  /\ 1 <= Watcher.requiredStable Watcher.script_config
  /\ settled Watcher.script_config
       (Watcher.feed (four_samples ++ ["abc"])%list "abc") 4
  /\ exists st,
       Watcher.loop Watcher.script_config
         (Watcher.feed (four_samples ++ ["abc"])%list "abc")
       = Watcher.Exited st.
Proof.
  assert (Hp : 0 < Watcher.pollInterval Watcher.script_config) by (cbn; lia).
  assert (Hr : 1 <= Watcher.requiredStable Watcher.script_config) by (cbn; lia).
  assert (Hs : settled Watcher.script_config
                 (Watcher.feed (four_samples ++ ["abc"])%list "abc") 4).
  { intros j Hj. cbn in Hj.
    assert (E : j = 2 \/ j = 3 \/ j = 4) by lia.
    destruct E as [ -> | [ -> | -> ] ]; cbn; lia. }
  split; [exact Hp|]. split; [exact Hr|]. split; [exact Hs|].
  destruct (proj1 watcher_done_exactly Watcher.script_config
              (Watcher.feed (four_samples ++ ["abc"])%list "abc") Hp Hr)
    as (_ & Hdone & _).
  apply (Hdone 4 Hs). cbn. lia.
Defined.

(** C1, as stated, fails: on texts of lengths 0, 0, 5, 9, 9, 9 the watcher
    has not left its loop at the third 9, whatever is read later. *)
Lemma third_nine_is_not_done :
  ~ exists rest st,
      Watcher.run Watcher.script_config 6 (Watcher.feed six_samples rest)
        Watcher.start
      = Watcher.Exited st.
Proof.
  intros (rest & st & H). cbn in H. discriminate H.
Qed.

(** C5 (as the code has it): when the loop ends on its time limit, the
    script looks at the length of the last sample polled.  If that sample
    was not empty it reads the output once more and returns what it reads
    then, or its "Could not retrieve" text if that read fails; if that
    sample was empty it returns its "took too long" text, and so it does
    when no sample was ever non-empty. *)
Theorem timeout_result (cfg : Watcher.Config) (out : Watcher.Output) :
  0 < Watcher.pollInterval cfg ->
  let last := Watcher.maxWaitTime cfg / Watcher.pollInterval cfg in
  (forall st,
     Watcher.loop cfg out = Watcher.TimedOut st ->
     Watcher.polls st = S last
     /\ option_map Watcher.response (Watcher.awaitCompletion cfg out)
        = Some (if 0 <? Watcher.len out last
                then match out (S last) with
                     | Some t => t
                     | None => Watcher.could_not_retrieve
                     end
                else Watcher.took_too_long))
  /\ ((forall k, Watcher.len out k = 0) ->
      option_map Watcher.response (Watcher.awaitCompletion cfg out)
      = Some Watcher.took_too_long).
Proof.
  intros Hp last.
  assert (Hfirst : forall st,
     Watcher.loop cfg out = Watcher.TimedOut st ->
     Watcher.polls st = S last
     /\ option_map Watcher.response (Watcher.awaitCompletion cfg out)
        = Some (if 0 <? Watcher.len out last
                then match out (S last) with
                     | Some t => t
                     | None => Watcher.could_not_retrieve
                     end
                else Watcher.took_too_long)).
  { intros st H. pose proof H as Hloop. unfold Watcher.loop in H.
    rewrite (start_canon cfg out) in H.
    destruct (run_timed_out _ _ _ _ H) as (k & _ & Hst & Ht & Hbefore).
    subst st.
    assert (Hk : k = S last).
    { destruct k as [|k]; [cbn in Ht; lia|].
      specialize (Hbefore k ltac:(lia)). f_equal. unfold last.
      apply Nat.le_antisymm.
      - apply Nat.div_le_lower_bound; lia.
      - assert (Watcher.maxWaitTime cfg / Watcher.pollInterval cfg < S k);
          [|lia].
        apply Nat.Div0.div_lt_upper_bound; lia. }
    subst k. split; [reflexivity|].
    unfold Watcher.awaitCompletion. rewrite Hloop.
    unfold Watcher.conclude, canon.
    cbn [Watcher.waitTime Watcher.previousResponseLength Watcher.polls
         Watcher.responseText Watcher.prevlen].
    destruct (Nat.ltb_spec (Watcher.maxWaitTime cfg)
                (S last * Watcher.pollInterval cfg)); [|lia].
    cbn [andb].
    destruct (0 <? Watcher.len out last); reflexivity. }
  split; [exact Hfirst|].
  intros Hempty.
  destruct (Watcher.loop cfg out) as [st|st|st] eqn:Hloop.
  - unfold Watcher.loop in Hloop. rewrite (start_canon cfg out) in Hloop.
    destruct (run_exited _ _ _ _ Hloop) as (k & _ & _ & Hw & _).
    unfold window, Watcher.stable in Hw. rewrite (Hempty k) in Hw.
    discriminate Hw.
  - destruct (Hfirst st eq_refl) as [_ E]. rewrite E.
    now rewrite (Hempty last).
  - exfalso. exact (loop_total cfg out Hp Hloop).
Qed.

Lemma timeout_result_witness :
  0 < Watcher.pollInterval Watcher.script_config
  /\ option_map Watcher.response
       (Watcher.awaitCompletion Watcher.script_config (fun _ => Some ""))
     = Some Watcher.took_too_long.
Proof.
  assert (Hp : 0 < Watcher.pollInterval Watcher.script_config) by (cbn; lia).
  split; [exact Hp|].
  apply (proj2 (timeout_result Watcher.script_config (fun _ => Some "") Hp)).
  intros k. reflexivity.
Defined.

(** C5, as stated, fails: a text is observed at the first poll and the
    surface is empty afterwards, and the watcher returns its "took too long"
    text, not the text it had observed; and when the length keeps changing
    and the surface is empty at the read after the time limit, the watcher
    returns the empty string. *)
Lemma timeout_forgets_observed_text :
  Watcher.sample vanishing 0 = "partial"
  /\ option_map Watcher.response
       (Watcher.awaitCompletion Watcher.script_config vanishing)
     = Some Watcher.took_too_long
  /\ Watcher.took_too_long <> "partial"
  /\ Watcher.sample flickering 39 = "bb"
  /\ option_map Watcher.response
       (Watcher.awaitCompletion Watcher.script_config flickering)
     = Some "".
Proof.
  repeat split; try (vm_compute; reflexivity). discriminate.
Qed.

(** * Further properties of the program *)

(** ** What the script reads back *)

(** A literal's value and the text after it are shorter than the text it
    was read from: the closing quote at least is gone. *)
Lemma read_literal_shorter (n : nat) :
  forall s v r,
    String.length s <= n ->
    AppleScript.read_literal s = Some (v, r) ->
    String.length v + String.length r < String.length s.
Proof.
  induction n as [|n IH]; intros s v r Hn H.
  - destruct s; [discriminate H | cbn in Hn; lia].
  - destruct s as [|c s1]; [discriminate H|].
    cbn [AppleScript.read_literal] in H. cbn [String.length] in *.
    destruct (Ascii.eqb c dquote).
    + inversion H; subst. cbn. lia.
    + destruct (Ascii.eqb c backslash).
      * destruct s1 as [|e s2]; [discriminate H|].
        destruct (AppleScript.unescape e); [|discriminate H].
        destruct (AppleScript.read_literal s2) as [[v2 r2]|] eqn:E;
          [|discriminate H].
        cbn [AppleScript.push] in H. inversion H; subst.
        cbn [String.length] in *.
        pose proof (IH s2 v2 r ltac:(lia) E). lia.
      * destruct (AppleScript.read_literal s1) as [[v1 r1]|] eqn:E;
          [|discriminate H].
        cbn [AppleScript.push] in H. inversion H; subst.
        cbn [String.length].
        pose proof (IH s1 v1 r ltac:(lia) E). lia.
Qed.

Lemma plain_char_split (c : ascii) :
  plain_char c = true <-> c <> dquote /\ c <> backslash.
Proof.
  unfold plain_char. rewrite andb_true_iff, !negb_true_iff.
  split; intros [H1 H2]; split.
  - intros ->. now rewrite Ascii.eqb_refl in H1.
  - intros ->. now rewrite Ascii.eqb_refl in H2.
  - now apply Ascii.eqb_neq.
  - now apply Ascii.eqb_neq.
Qed.

Lemma unescape_backslash (e : ascii) :
  AppleScript.unescape e = Some backslash -> e = backslash.
Proof.
  unfold AppleScript.unescape.
  destruct (Ascii.eqb e dquote); [discriminate|].
  destruct (Ascii.eqb_spec e backslash) as [->|]; [reflexivity|].
  destruct (Ascii.eqb e "n"); [discriminate|].
  destruct (Ascii.eqb e "r"); [discriminate|].
  destruct (Ascii.eqb e "t"); discriminate.
Qed.

(** A text that is read back whole from between two quotes holds no quote
    and no backslash. *)
Lemma read_literal_whole_plain (a rest : string) :
  AppleScript.read_literal (a ++ String dquote rest) = Some (a, rest) ->
  plain a = true.
Proof.
  induction a as [|c a IH]; intros H; [reflexivity|].
  cbn [String.append AppleScript.read_literal] in H.
  destruct (Ascii.eqb_spec c dquote) as [->|Hq]; [discriminate H|].
  destruct (Ascii.eqb_spec c backslash) as [->|Hb].
  - exfalso.
    destruct (a ++ String dquote rest) as [|e s2] eqn:Es; [discriminate H|].
    destruct (AppleScript.unescape e) as [d|] eqn:Ed; [|discriminate H].
    destruct (AppleScript.read_literal s2) as [[v2 r2]|] eqn:E;
      [|discriminate H].
    cbn [AppleScript.push] in H. inversion H; subst.
    pose proof (read_literal_shorter (n:=String.length s2) s2 (le_n _) E) as Hlen.
    apply (f_equal String.length) in Es. rewrite length_append in Es.
    cbn [String.length] in Es. lia.
  - destruct (AppleScript.read_literal (a ++ String dquote rest))
      as [[v1 r1]|] eqn:E; [|discriminate H].
    cbn [AppleScript.push] in H. inversion H; subst.
    cbn [plain]. rewrite (IH eq_refl).
    now rewrite (proj2 (plain_char_split c) (conj Hq Hb)).
Qed.

Lemma strip_click_prefix (s : string) :
  literal_after "click button " ("click button " ++ str1 dquote ++ s)
  = AppleScript.read_literal s.
Proof.
  unfold literal_after. cbn [String.append strip_prefix str1].
  repeat (rewrite Ascii.eqb_refl; cbn [strip_prefix]). reflexivity.
Qed.

Lemma click_button_target_plain (conversationId : string) :
  plain conversationId = true ->
  click_button_target conversationId = Some (conversationId, click_suffix).
Proof.
  intros H. unfold click_button_target, click_line.
  rewrite strip_click_prefix. cbn [str1 String.append].
  apply read_literal_plain, H.
Qed.

(** X2 (conversation id): the button the script clicks is the conversation
    the caller named, with the template's own text after the literal, exactly
    when the identifier holds no double quote and no backslash. *)
Theorem click_button_target_exact (conversationId : string) :
  click_button_target conversationId = Some (conversationId, click_suffix)
  <-> plain conversationId = true.
Proof.
  unfold click_button_target, click_line. rewrite strip_click_prefix.
  cbn [str1 String.append]. split.
  - apply read_literal_whole_plain.
  - apply read_literal_plain.
Qed.

Lemma read_escaped_nil : read_escaped "" = Some ("", "").
Proof. reflexivity. Qed.

Lemma read_escaped_cons (c : ascii) (s : string) :
  c <> backslash ->
  read_escaped (String c s) = AppleScript.push c (read_escaped s).
Proof.
  intros Hb. unfold read_escaped. rewrite escape_prompt_cons.
  destruct (Ascii.eqb_spec c dquote) as [->|Hq].
  - cbn [String.append AppleScript.read_literal].
    change (Ascii.eqb backslash dquote) with false.
    change (Ascii.eqb backslash backslash) with true. reflexivity.
  - destruct (Ascii.eqb_spec c LF) as [->|Hn].
    + cbn [String.append AppleScript.read_literal].
      change (Ascii.eqb backslash dquote) with false.
      change (Ascii.eqb backslash backslash) with true. reflexivity.
    + cbn [String.append AppleScript.read_literal].
      destruct (Ascii.eqb_spec c dquote); [contradiction|].
      destruct (Ascii.eqb_spec c backslash); [contradiction|]. reflexivity.
Qed.

(** After a backslash the script reads the next character of the escaped
    text as an escape. *)
Lemma read_escaped_backslash (s : string) :
  read_escaped (String backslash s) =
  match s with
  | EmptyString => None
  | String x s' =>
      if Ascii.eqb x dquote then Some (str1 backslash, escape_prompt s' ++ String dquote "")
      else if Ascii.eqb x LF
           then AppleScript.push backslash (AppleScript.push "n" (read_escaped s'))
           else match AppleScript.unescape x with
                | Some d => AppleScript.push d (read_escaped s')
                | None => None
                end
  end.
Proof.
  unfold read_escaped. rewrite escape_prompt_cons.
  change (Ascii.eqb backslash dquote) with false.
  change (Ascii.eqb backslash LF) with false. cbv iota.
  destruct s as [|x s']; [reflexivity|].
  rewrite escape_prompt_cons.
  cbn [String.append AppleScript.read_literal].
  change (Ascii.eqb backslash dquote) with false.
  change (Ascii.eqb backslash backslash) with true. cbv iota.
  destruct (Ascii.eqb_spec x dquote) as [->|Hq].
  - cbn [String.append]. change (AppleScript.unescape backslash) with (Some backslash).
    cbn [AppleScript.read_literal]. rewrite Ascii.eqb_refl. reflexivity.
  - destruct (Ascii.eqb_spec x LF) as [->|Hn].
    + cbn [String.append]. change (AppleScript.unescape backslash) with (Some backslash).
      cbv iota. reflexivity.
    + cbn [String.append]. reflexivity.
Qed.

Lemma push_some (c : ascii) (o : option (string * string)) (v r : string) :
  AppleScript.push c o = Some (v, r) ->
  exists v', o = Some (v', r) /\ v = String c v'.
Proof.
  destruct o as [[v' r']|]; [|discriminate].
  cbn. intros H. inversion H; subst. now exists v'.
Qed.

Lemma read_escaped_facts (n : nat) :
  forall s v r,
    String.length s <= n ->
    read_escaped s = Some (v, r) ->
    String.length v <= String.length s
    /\ (v = s -> no_backslash s = true).
Proof.
  induction n as [|n IH]; intros s v r Hn H.
  - destruct s; [|cbn in Hn; lia].
    rewrite read_escaped_nil in H. inversion H. split; [cbn; lia | reflexivity].
  - destruct s as [|c s]; [rewrite read_escaped_nil in H; inversion H;
                           split; [cbn; lia | reflexivity]|].
    cbn [String.length] in Hn.
    destruct (Ascii.eqb_spec c backslash) as [->|Hb].
    + rewrite read_escaped_backslash in H.
      destruct s as [|x s']; [discriminate H|]. cbn [String.length] in *.
      destruct (Ascii.eqb_spec x dquote) as [->|Hq].
      { inversion H; subst. split; [cbn; lia | discriminate]. }
      destruct (Ascii.eqb_spec x LF) as [->|Hx].
      { apply push_some in H. destruct H as (v1 & H & ->).
        apply push_some in H. destruct H as (v2 & H & ->).
        destruct (IH s' v2 r ltac:(lia) H) as [Hlen _].
        split; [cbn [String.length]; lia | discriminate]. }
      destruct (AppleScript.unescape x) as [d|] eqn:Ed; [|discriminate H].
      apply push_some in H. destruct H as (v1 & H & ->).
      destruct (IH s' v1 r ltac:(lia) H) as [Hlen _].
      split; [cbn [String.length]; lia|].
      intros E. inversion E; subst. cbn [String.length] in Hlen. lia.
    + rewrite (read_escaped_cons _ Hb) in H.
      apply push_some in H. destruct H as (v1 & H & ->).
      destruct (IH s v1 r ltac:(lia) H) as [Hlen Hv].
      split; [cbn [String.length]; lia|].
      intros E. inversion E; subst. cbn [no_backslash].
      rewrite (Hv eq_refl).
      now rewrite (proj2 (Ascii.eqb_neq c backslash) Hb).
Qed.

Lemma thePrompt_of_read_escaped (prompt : string) :
  thePrompt_of prompt = read_escaped prompt.
Proof.
  unfold thePrompt_of, literal_after, prompt_line, read_escaped.
  cbn [String.append strip_prefix str1].
  repeat (rewrite Ascii.eqb_refl; cbn [strip_prefix]). reflexivity.
Qed.

Lemma compile_ask_script_thePrompt (prompt : string) (c : option string)
  (sc : AskScript) :
  compile_ask_script prompt c = Some sc ->
  thePrompt_of prompt = Some (thePrompt sc, "").
Proof.
  unfold compile_ask_script.
  destruct (thePrompt_of prompt) as [[p [|x r]]|]; try discriminate.
  destruct c as [cid|].
  - destruct (click_button_target cid) as [[t rest]|]; [|discriminate].
    destruct (String.eqb rest click_suffix); [|discriminate].
    intros H. inversion H. reflexivity.
  - intros H. inversion H. reflexivity.
Qed.

(** X1 (prompt): the script holds the prompt itself as [thePrompt] exactly
    when the prompt has no backslash; with a backslash in it the script
    either does not compile or holds another text. *)
Theorem thePrompt_verbatim_iff (prompt : string) :
  ((exists rest, thePrompt_of prompt = Some (prompt, rest))
   <-> no_backslash prompt = true)
  /\ (forall c sc,
        compile_ask_script prompt c = Some sc ->
        (thePrompt sc = prompt <-> no_backslash prompt = true)).
Proof.
  assert (Hiff : (exists rest, thePrompt_of prompt = Some (prompt, rest))
                 <-> no_backslash prompt = true).
  { split.
    - intros [rest H]. rewrite thePrompt_of_read_escaped in H.
      exact (proj2 (@read_escaped_facts _ prompt prompt rest (le_n _) H) eq_refl).
    - intros H. exists "". apply thePrompt_of_verbatim, H. }
  split; [exact Hiff|].
  intros c sc Hc. pose proof (compile_ask_script_thePrompt _ _ Hc) as Hp.
  split.
  - intros E. apply Hiff. exists "". rewrite Hp, E. reflexivity.
  - intros H. exact (compile_ask_script_verbatim _ _ Hc H).
Qed.

(** ** checkChatGPTAccess and the rate limiter *)

Lemma ms_1 : ms_of_seconds 1 = 1000%Z.
Proof. reflexivity. Qed.
Lemma ms_2 : ms_of_seconds 2 = 2000%Z.
Proof. reflexivity. Qed.
Lemma ms_half : ms_of_seconds (1 # 2) = 500%Z.
Proof. reflexivity. Qed.

(** What the access check leaves alone, and what it throws. *)
Lemma checkChatGPTAccess_frame (env : Env) (w : World) :
  let (w', res) := checkChatGPTAccess env w in
  lastRequestTime w' = lastRequestTime w
  /\ reads_done w' = reads_done w
  /\ (clock w <= clock w')%Z
  /\ sleeps (trace w') = sleeps (trace w)
  /\ forall e, res = inl e -> w' = w /\ exists e0, e = cannot_access ++ e0.
Proof.
  unfold checkChatGPTAccess, exists_script, activate_script, activate,
    try_catch, fail_if, log, delay, bind, ret, throw.
  destruct (process_exists env) as [e0|printed].
  - do 4 (split; [reflexivity || lia|]). intros e H.
    inversion H; subst. split; [reflexivity|]. now exists e0.
  - destruct (String.eqb printed "true").
    + do 4 (split; [reflexivity || lia|]). intros e H. discriminate H.
    + destruct (activate_error env) as [e0|].
      * do 4 (split; [reflexivity || lia|]). intros e H.
        inversion H; subst. split; [reflexivity|]. now exists could_not_activate.
      * rewrite ms_2. cbn.
        do 4 (split; [reflexivity || lia|]). intros e H. discriminate H.
Qed.

(** X3 (access check): [checkChatGPTAccess] returns [true] or throws, never
    [false].  When the application is reported running it does nothing; when
    it is not, it activates it and waits 2 s.  When it throws, the world is
    as it was and the message starts with the "Cannot access" text; the
    message of a failed activation is replaced by the "Could not activate"
    text, the message of a failed query is kept. *)
Theorem checkChatGPTAccess_outcomes (env : Env) (w : World) :
  match checkChatGPTAccess env w with
  | (w', inr b) =>
      b = true
      /\ ((process_exists env = inr "true" /\ w' = w)
          \/ (exists printed,
                process_exists env = inr printed /\ printed <> "true"
                /\ activate_error env = None
                /\ w' = advance 2000 (record_event EvActivate w)))
  | (w', inl e) =>
      w' = w
      /\ ((exists e0, process_exists env = inl e0 /\ e = cannot_access ++ e0)
          \/ (exists printed e0,
                process_exists env = inr printed /\ printed <> "true"
                /\ activate_error env = Some e0
                /\ e = cannot_access ++ could_not_activate))
  end.
Proof.
  unfold checkChatGPTAccess, exists_script, activate_script, activate,
    try_catch, fail_if, log, delay, bind, ret, throw.
  destruct (process_exists env) as [e0|printed].
  - split; [reflexivity|]. left. now exists e0.
  - destruct (String.eqb_spec printed "true") as [->|Hne].
    + split; [reflexivity|]. left. split; reflexivity.
    + destruct (activate_error env) as [e0|].
      * split; [reflexivity|]. right. now exists printed, e0.
      * split; [reflexivity|]. right. exists printed. repeat split; auto.
Qed.

Lemma waitForRateLimit_returns (customDelay : option Z) (w : World) :
  snd (waitForRateLimit customDelay w) = inr tt.
Proof.
  unfold waitForRateLimit, bind, Date_now, get_lastRequestTime, sleep, ret.
  destruct (_ <? _)%Z; reflexivity.
Qed.

Lemma waitForRateLimit_clock (customDelay : option Z) (w : World) :
  let w' := fst (waitForRateLimit customDelay w) in
  lastRequestTime w' = lastRequestTime w
  /\ reads_done w' = reads_done w
  /\ clock w'
     = Z.max (clock w)
         (lastRequestTime w + or_default customDelay RATE_LIMIT_DELAY)
  /\ sleeps (trace w') <= S (sleeps (trace w)).
Proof.
  unfold waitForRateLimit, bind, Date_now, get_lastRequestTime, sleep, ret.
  destruct (Z.ltb_spec (clock w - lastRequestTime w)
              (or_default customDelay RATE_LIMIT_DELAY));
    cbn [fst advance record_event lastRequestTime reads_done clock trace];
    (split; [reflexivity|]); (split; [reflexivity|]); (split; [lia|]);
    unfold sleeps; cbn [filter snd is_sleep List.length]; lia.
Qed.

(** X4 (rate limiter): [waitForRateLimit] never throws and changes nothing
    but the clock and the trace.  When it returns, the interval it uses has
    passed since [lastRequestTime]; when that interval had already passed it
    returns at once, and otherwise it wakes up at [lastRequestTime] plus the
    interval. *)
Theorem waitForRateLimit_elapsed (customDelay : option Z) (w : World) :
  let interval := or_default customDelay RATE_LIMIT_DELAY in
  let w' := fst (waitForRateLimit customDelay w) in
  snd (waitForRateLimit customDelay w) = inr tt
  /\ lastRequestTime w' = lastRequestTime w
  /\ clipboard w' = clipboard w
  /\ (interval <= clock w' - lastRequestTime w')%Z
  /\ ((interval <= clock w - lastRequestTime w)%Z -> w' = w)
  /\ ((clock w - lastRequestTime w < interval)%Z ->
      clock w' = (lastRequestTime w + interval)%Z
      /\ trace w' = (clock w, EvSleep (interval - (clock w - lastRequestTime w)))
                      :: trace w).
Proof.
  intros interval w'.
  split; [apply waitForRateLimit_returns|].
  subst w' interval.
  unfold waitForRateLimit, bind, Date_now, get_lastRequestTime, sleep, ret.
  destruct (Z.ltb_spec (clock w - lastRequestTime w)
              (or_default customDelay RATE_LIMIT_DELAY)) as [Hlt|Hge];
    cbn [fst advance record_event lastRequestTime clipboard clock trace].
  - repeat split; lia.
  - repeat split; try lia; intros _; reflexivity.
Qed.

(** ** askChatGPT as a whole *)


(** Once the access check has passed, [askChatGPT] is its script run from
    the dispatched world, with the script's error rewrapped. *)
Lemma askChatGPT_dispatch (env : Env) (prompt : string)
  (conversationId : option string) (customDelay : option Z)
  (w w0 : World) (b : bool) :
  checkChatGPTAccess env w = (w0, inr b) ->
  askChatGPT env prompt conversationId customDelay w
  = try_catch (run_ask_script env prompt conversationId)
      (fun e => throw (failed_to_get ++ e)) (dispatched customDelay w0).
Proof.
  intros Hacc. unfold askChatGPT. rewrite (bind_inr _ Hacc).
  pose proof (waitForRateLimit_returns customDelay w0) as Hr.
  unfold dispatched.
  destruct (waitForRateLimit customDelay w0) as [w2 [e|[]]] eqn:Hwait;
    [discriminate Hr|].
  rewrite (bind_inr _ Hwait). reflexivity.
Qed.

Lemma askChatGPT_unreachable (env : Env) (prompt : string)
  (conversationId : option string) (customDelay : option Z)
  (w w0 : World) (e : string) :
  checkChatGPTAccess env w = (w0, inl e) ->
  askChatGPT env prompt conversationId customDelay w = (w, inl e)
  /\ exists e0, e = cannot_access ++ e0.
Proof.
  intros Hacc. unfold askChatGPT. rewrite (bind_inl _ Hacc).
  pose proof (checkChatGPTAccess_frame env w) as H. rewrite Hacc in H.
  destruct H as (_ & _ & _ & _ & H). destruct (H e eq_refl) as [-> He].
  split; [reflexivity | exact He].
Qed.

(** The script never touches [lastRequestTime] and never sleeps in the
    rate limiter, whatever its outcome. *)
Lemma ask_script_frame (env : Env) (sc : AskScript) (w : World) :
  lastRequestTime (fst (ask_script env sc w)) = lastRequestTime w
  /\ sleeps (trace (fst (ask_script env sc w))) = sleeps (trace w).
Proof.
  unfold ask_script, activate, enter_system_events, try_, try_catch,
    click_conversation, get_clipboard, set_clipboard, focus_input, paste,
    send, wait_for_response, fail_if, log, delay, bind, ret, throw.
  destruct (activate_error env); [split; reflexivity|].
  destruct (system_events_error env); [split; reflexivity|].
  destruct (select_target sc) as [name|];
    [destruct (conversation_button env name)|].
  all: destruct (focus_error env); [split; reflexivity|].
  all: destruct (paste_error env); [split; reflexivity|].
  all: destruct (send_error env); [split; reflexivity|].
  all: cbn;
    match goal with
    | |- context [Watcher.awaitCompletion ?c ?o] =>
        destruct (Watcher.awaitCompletion c o)
    end; split; reflexivity.
Qed.

Lemma runAppleScript_fst (m : M string) (w : World) :
  fst (runAppleScript m w) = fst (m w).
Proof.
  unfold runAppleScript, bind, ret. destruct (m w) as [w' [e|r]]; reflexivity.
Qed.

Lemma run_ask_script_frame (env : Env) (prompt : string)
  (conversationId : option string) (w : World) :
  lastRequestTime (fst (run_ask_script env prompt conversationId w))
  = lastRequestTime w
  /\ sleeps (trace (fst (run_ask_script env prompt conversationId w)))
     = sleeps (trace w).
Proof.
  unfold run_ask_script.
  destruct (compile_ask_script prompt (when_truthy conversationId)) as [sc|].
  - rewrite runAppleScript_fst. apply ask_script_frame.
  - split; reflexivity.
Qed.

Lemma try_catch_rethrow_fst {A} (m : M A) (f : string -> string) (w : World) :
  fst (try_catch m (fun e => throw (f e)) w) = fst (m w).
Proof.
  unfold try_catch, throw. destruct (m w) as [w' [e|a]]; reflexivity.
Qed.

(** X5 (pacing): when the application is reachable, [askChatGPT] records
    its dispatch in [lastRequestTime] whether its script then succeeds or
    fails, and two dispatches are never closer than the interval in use: the
    new [lastRequestTime] is at least the old one plus the interval.  The
    limiter is waited for at most once per call. *)
Theorem askChatGPT_spacing (env : Env) (prompt : string)
  (conversationId : option string) (customDelay : option Z)
  (w w0 : World) (b : bool) :
  checkChatGPTAccess env w = (w0, inr b) ->
  let w' := fst (askChatGPT env prompt conversationId customDelay w) in
  (lastRequestTime w + or_default customDelay RATE_LIMIT_DELAY
   <= lastRequestTime w')%Z
  /\ (clock w <= lastRequestTime w')%Z
  /\ sleeps (trace w') <= S (sleeps (trace w)).
Proof.
  intros Hacc w'. subst w'.
  rewrite (@askChatGPT_dispatch env prompt conversationId customDelay w w0 b Hacc),
    try_catch_rethrow_fst.
  destruct (run_ask_script_frame env prompt conversationId
              (dispatched customDelay w0)) as [-> ->].
  pose proof (checkChatGPTAccess_frame env w) as Hf. rewrite Hacc in Hf.
  destruct Hf as (Hl & _ & Hc & Hs & _).
  destruct (waitForRateLimit_clock customDelay w0) as (_ & _ & Hclock & Hsl).
  unfold dispatched. cbn [lastRequestTime trace].
  rewrite Hclock, Hl. repeat split; lia.
Qed.

Lemma askChatGPT_spacing_witness :
  checkChatGPTAccess (calm settles []) (world_at 1000 1000 "mine")
  = (world_at 1000 1000 "mine", inr true)
  /\ (1000 + or_default (Some 200%Z) RATE_LIMIT_DELAY
      <= lastRequestTime
           (fst (askChatGPT (calm settles []) "hello" None (Some 200%Z)
                   (world_at 1000 1000 "mine"))))%Z.
Proof.
  split; [reflexivity|].
  exact (proj1 (@askChatGPT_spacing (calm settles []) "hello" None
                  (Some 200%Z) (world_at 1000 1000 "mine")
                  (world_at 1000 1000 "mine") true eq_refl)).
Defined.

(** X6 (errors): an error of [askChatGPT] is either that of the access
    check, with the world as it was (no wait, no dispatch recorded), or the
    script's, behind the "Failed to get response" text. *)
Theorem askChatGPT_errors (env : Env) (prompt : string)
  (conversationId : option string) (customDelay : option Z)
  (w w' : World) (e : string) :
  askChatGPT env prompt conversationId customDelay w = (w', inl e) ->
  (w' = w /\ exists e0, e = cannot_access ++ e0)
  \/ (exists w0 b e0,
        checkChatGPTAccess env w = (w0, inr b)
        /\ e = failed_to_get ++ e0
        /\ run_ask_script env prompt conversationId (dispatched customDelay w0)
           = (w', inl e0)).
Proof.
  intros H.
  destruct (checkChatGPTAccess env w) as [w0 [e1|b]] eqn:Hacc.
  - left. destruct (@askChatGPT_unreachable env prompt conversationId customDelay w w0 e1 Hacc)
      as [Hrun He].
    rewrite Hrun in H. inversion H; subst. split; [reflexivity|exact He].
  - right. rewrite (@askChatGPT_dispatch env prompt conversationId customDelay w w0 b Hacc) in H.
    unfold try_catch, throw in H.
    destruct (run_ask_script env prompt conversationId
                (dispatched customDelay w0)) as [w1 [e0|r]] eqn:Hrun;
      [|discriminate H].
    inversion H; subst. exists w0, b, e0.
    split; [reflexivity|]. split; [reflexivity|]. exact Hrun.
Qed.

Lemma askChatGPT_errors_witness :
  askChatGPT (unfocusable settles) "hello" None None
    (world_at 1000000 0 "mine")
  = ({| clock := 1001000; lastRequestTime := 1000000; clipboard := "hello";
        input_field := ""; reads_done := 0;
        trace := [(1001000%Z, EvSetClipboard "hello");
                  (1000000%Z, EvActivate)] |},
     inl "Failed to get response from ChatGPT: Can't get text field 1")
  /\ exists e0,
       "Failed to get response from ChatGPT: Can't get text field 1"
       = failed_to_get ++ e0.
Proof.
  assert (E : askChatGPT (unfocusable settles) "hello" None None
                (world_at 1000000 0 "mine")
              = ({| clock := 1001000; lastRequestTime := 1000000;
                    clipboard := "hello"; input_field := ""; reads_done := 0;
                    trace := [(1001000%Z, EvSetClipboard "hello");
                              (1000000%Z, EvActivate)] |},
                 inl "Failed to get response from ChatGPT: Can't get text field 1"))
    by (vm_compute; reflexivity).
  split; [exact E|].
  destruct (@askChatGPT_errors _ _ _ _ _ _ _ E) as [[Hw _]|(w0 & b & e0 & _ & He & _)].
  - discriminate Hw.
  - exists e0. exact He.
Defined.

(** ** Bounds of the watcher *)

Lemma loop_timed_out_state (cfg : Watcher.Config) (out : Watcher.Output)
  (st : Watcher.State) :
  0 < Watcher.pollInterval cfg ->
  Watcher.loop cfg out = Watcher.TimedOut st ->
  st = canon cfg out
         (S (Watcher.maxWaitTime cfg / Watcher.pollInterval cfg)).
Proof.
  intros Hp H. unfold Watcher.loop in H. rewrite (start_canon cfg out) in H.
  destruct (run_timed_out _ _ _ _ H) as (k & _ & Hst & Ht & Hbefore).
  subst st. f_equal.
  destruct k as [|k]; [cbn in Ht; lia|].
  specialize (Hbefore k ltac:(lia)). f_equal.
  apply Nat.le_antisymm.
  - apply Nat.div_le_lower_bound; lia.
  - assert (Watcher.maxWaitTime cfg / Watcher.pollInterval cfg < S k); [|lia].
    apply Nat.Div0.div_lt_upper_bound; lia.
Qed.

(** The two ways the watcher returns. *)
Lemma awaitCompletion_cases (cfg : Watcher.Config) (out : Watcher.Output) :
  0 < Watcher.pollInterval cfg ->
  exists r,
    Watcher.awaitCompletion cfg out = Some r
    /\ ((exists k,
           window cfg out k = true
           /\ k * Watcher.pollInterval cfg <= Watcher.maxWaitTime cfg
           /\ r = {| Watcher.response := Watcher.sample out k;
                     Watcher.reads := S k;
                     Watcher.waited := k * Watcher.pollInterval cfg |})
        \/ (Watcher.waited r
            = S (Watcher.maxWaitTime cfg / Watcher.pollInterval cfg)
              * Watcher.pollInterval cfg
            /\ S (Watcher.maxWaitTime cfg / Watcher.pollInterval cfg)
               <= Watcher.reads r
               <= S (S (Watcher.maxWaitTime cfg / Watcher.pollInterval cfg)))).
Proof.
  intros Hp.
  destruct (Watcher.loop cfg out) as [st|st|st] eqn:Hloop.
  - pose proof Hloop as H. unfold Watcher.loop in H.
    rewrite (start_canon cfg out) in H.
    destruct (run_exited _ _ _ _ H) as (k & _ & Hst & Hw & Ht & _).
    subst st.
    eexists. split; [exact (@awaitCompletion_exited cfg out k Hloop Ht)|].
    left. exists k. repeat split; assumption.
  - pose proof (@loop_timed_out_state cfg out st Hp Hloop) as Hst. subst st.
    unfold Watcher.awaitCompletion. rewrite Hloop.
    unfold Watcher.conclude, canon.
    cbn [Watcher.waitTime Watcher.previousResponseLength Watcher.polls
         Watcher.responseText Watcher.prevlen].
    destruct (_ <? _); cbn [andb];
      [destruct (0 <? _)|];
      (eexists; split; [reflexivity|]; right;
       cbn [Watcher.waited Watcher.reads]; split; [reflexivity | lia]).
  - exfalso. exact (loop_total cfg out Hp Hloop).
Qed.

(** X7 (watcher bounds): with a positive poll interval the watcher always
    returns.  When the required stable polls fit into the time limit, it has
    then waited at least [requiredStable] poll intervals and at most the time
    limit plus one interval, it has read the output more than
    [requiredStable] times and at most [maxWaitTime / pollInterval + 2]
    times, and it returns an empty text only after the time limit. *)
Theorem awaitCompletion_bounds (cfg : Watcher.Config) (out : Watcher.Output) :
  0 < Watcher.pollInterval cfg ->
  1 <= Watcher.requiredStable cfg ->
  Watcher.requiredStable cfg * Watcher.pollInterval cfg
    <= Watcher.maxWaitTime cfg ->
  exists r,
    Watcher.awaitCompletion cfg out = Some r
    /\ Watcher.requiredStable cfg * Watcher.pollInterval cfg
       <= Watcher.waited r
    /\ Watcher.waited r <= Watcher.maxWaitTime cfg + Watcher.pollInterval cfg
    /\ Watcher.requiredStable cfg < Watcher.reads r
    /\ Watcher.reads r
       <= Watcher.maxWaitTime cfg / Watcher.pollInterval cfg + 2
    /\ (Watcher.response r = "" -> Watcher.maxWaitTime cfg < Watcher.waited r).
Proof.
  intros Hp Hreq Hfit.
  set (p := Watcher.pollInterval cfg) in *.
  set (mx := Watcher.maxWaitTime cfg) in *.
  set (req := Watcher.requiredStable cfg) in *.
  assert (Hreqlast : req <= mx / p) by (apply Nat.div_le_lower_bound; lia).
  pose proof (Nat.mul_succ_div_gt mx p ltac:(lia)) as Hgt.
  pose proof (Nat.Div0.mul_div_le mx p) as Hle.
  destruct (awaitCompletion_cases cfg out Hp) as (r & Hr & Hcases).
  exists r. split; [exact Hr|]. fold p mx in Hcases.
  destruct Hcases as [(k & Hw & Ht & Hrk)|[Hwaited Hreads]].
  - subst r. apply window_settled in Hw; [|exact Hreq].
    pose proof (settled_requires Hw) as Hk. fold req in Hk.
    assert (Hklast : k <= mx / p) by (apply Nat.div_le_lower_bound; lia).
    cbn [Watcher.waited Watcher.reads Watcher.response].
    assert (req * p <= k * p) by (apply Nat.mul_le_mono_r; exact Hk).
    repeat split; try lia.
    intros Hempty. destruct (Hw k ltac:(lia)) as (_ & Hpos & _).
    unfold Watcher.len in Hpos. rewrite Hempty in Hpos. cbn in Hpos. lia.
  - rewrite Hwaited. repeat split; lia.
Qed.

Lemma awaitCompletion_bounds_witness :
  0 < Watcher.pollInterval Watcher.script_config
  /\ 1 <= Watcher.requiredStable Watcher.script_config
  /\ Watcher.requiredStable Watcher.script_config
       * Watcher.pollInterval Watcher.script_config
     <= Watcher.maxWaitTime Watcher.script_config
  /\ exists r,
       Watcher.awaitCompletion Watcher.script_config settles = Some r
       /\ 9 <= Watcher.waited r <= 123
       /\ 3 < Watcher.reads r <= 42.
Proof.
  assert (H1 : 0 < Watcher.pollInterval Watcher.script_config) by (cbn; lia).
  assert (H2 : 1 <= Watcher.requiredStable Watcher.script_config) by (cbn; lia).
  assert (H3 : Watcher.requiredStable Watcher.script_config
                 * Watcher.pollInterval Watcher.script_config
               <= Watcher.maxWaitTime Watcher.script_config) by (cbn; lia).
  split; [exact H1|]. split; [exact H2|]. split; [exact H3|].
  destruct (awaitCompletion_bounds Watcher.script_config settles H1 H2 H3)
    as (r & Hr & Ha & Hb & Hc & Hd & _).
  exists r. split; [exact Hr|]. cbn in Ha, Hb, Hc, Hd. lia.
Defined.

(** ** A call of askChatGPT that returns *)

(** What a run of the script that returns has done. *)
Lemma ask_script_returns (env : Env) (sc : AskScript) (w w' : World) (r : string) :
  ask_script env sc w = (w', inr r) ->
  exists res selecting,
    Watcher.awaitCompletion Watcher.script_config
      (fun k => output env (reads_done w + k)) = Some res
    /\ r = Watcher.response res
    /\ (selecting = 0 \/ selecting = 1000
                            /\ exists name, select_target sc = Some name
                                            /\ conversation_button env name = true)%Z
    /\ clock w'
       = (clock w + 1000 + selecting + 500
          + (Z.of_nat (String.length (thePrompt sc)) + 1000) + 2000
          + 1000 * Z.of_nat (Watcher.waited res))%Z
    /\ lastRequestTime w' = lastRequestTime w
    /\ reads_done w' = reads_done w + Watcher.reads res
    /\ pasted (trace w') = Some (thePrompt sc).
Proof.
  unfold ask_script, activate, enter_system_events, try_, try_catch,
    click_conversation, get_clipboard, set_clipboard, focus_input, paste,
    send, wait_for_response, fail_if, log, delay, bind, ret, throw.
  rewrite ms_of_pasteDelay, ms_1, ms_2, ms_half.
  destruct (activate_error env); [discriminate|].
  destruct (system_events_error env); [discriminate|].
  destruct (focus_error env); [destruct (select_target sc) as [name|];
    [destruct (conversation_button env name)|]; discriminate|].
  destruct (paste_error env); [destruct (select_target sc) as [name|];
    [destruct (conversation_button env name)|]; discriminate|].
  destruct (send_error env); [destruct (select_target sc) as [name|];
    [destruct (conversation_button env name)|]; discriminate|].
  destruct (select_target sc) as [name|];
    [destruct (conversation_button env name) eqn:Hbutton|].
  all: cbn; intros H;
    match type of H with
    | context [Watcher.awaitCompletion ?c ?o] =>
        destruct (Watcher.awaitCompletion c o) as [res|] eqn:Hres;
        [|discriminate H]
    end;
    inversion H; subst; clear H; exists res.
  - exists 1000%Z. split; [reflexivity|]. split; [reflexivity|].
    split; [right; split; [reflexivity|]; exists name; split;
            [reflexivity | exact Hbutton]|].
    split; [cbn; lia|]. split; [reflexivity|]. split; reflexivity.
  - exists 0%Z. split; [reflexivity|]. split; [reflexivity|].
    split; [now left|].
    split; [cbn; lia|]. split; [reflexivity|]. split; reflexivity.
  - exists 0%Z. split; [reflexivity|]. split; [reflexivity|].
    split; [now left|].
    split; [cbn; lia|]. split; [reflexivity|]. split; reflexivity.
Qed.

Lemma askChatGPT_returns (env : Env) (prompt : string)
  (conversationId : option string) (customDelay : option Z)
  (w w' : World) (r : string) :
  askChatGPT env prompt conversationId customDelay w = (w', inr r) ->
  exists sc w0 b r0,
    checkChatGPTAccess env w = (w0, inr b)
    /\ compile_ask_script prompt (when_truthy conversationId) = Some sc
    /\ ask_script env sc (dispatched customDelay w0) = (w', inr r0)
    /\ r = JsString.trim r0.
Proof.
  intros H.
  destruct (checkChatGPTAccess env w) as [w0 [e1|b]] eqn:Hacc.
  - destruct (@askChatGPT_unreachable env prompt conversationId customDelay
                w w0 e1 Hacc) as [Hrun _].
    rewrite Hrun in H. discriminate H.
  - rewrite (@askChatGPT_dispatch env prompt conversationId customDelay
               w w0 b Hacc) in H.
    unfold try_catch, throw, run_ask_script in H.
    destruct (compile_ask_script prompt (when_truthy conversationId))
      as [sc|]; [|discriminate H].
    unfold runAppleScript, bind, ret in H.
    destruct (ask_script env sc (dispatched customDelay w0))
      as [w1 [e0|r1]] eqn:Hrun; [discriminate H|].
    inversion H; subst. exists sc, w0, b, r1.
    split; [reflexivity|]. split; [reflexivity|]. split; [exact Hrun|].
    reflexivity.
Qed.

(** X8 (duration): for a prompt without a backslash and a conversation id,
    if there is one, without double quote and backslash, so that the script is
    its template, the delays of a call of [askChatGPT] that returns add up,
    from the dispatch on, to between 13.5 s and 128.5 s plus one millisecond
    for each character of the prompt; the output was read between 4 and 42
    times. *)
Theorem askChatGPT_duration (env : Env) (prompt : string)
  (conversationId : option string) (customDelay : option Z)
  (w w' : World) (r : string) :
  no_backslash prompt = true ->
  inside_literal conversationId = true ->
  askChatGPT env prompt conversationId customDelay w = (w', inr r) ->
  let N := Z.of_nat (String.length prompt) in
  (13500 + N <= clock w' - lastRequestTime w' <= 128500 + N)%Z
  /\ reads_done w + 4 <= reads_done w' <= reads_done w + 42.
Proof.
  intros Hnb _ H.
  destruct (@askChatGPT_returns _ _ _ _ _ _ _ H)
    as (sc & w0 & b & r0 & Hacc & Hc & Hrun & _).
  pose proof (compile_ask_script_verbatim _ _ Hc Hnb) as Hp.
  intros N.
  destruct (@ask_script_returns _ _ _ _ _ Hrun)
    as (res & sel & Hres & _ & Hsel & Hclock & Hlast & Hreads & _).
  rewrite Hp in Hclock.
  assert (Hbounds : 9 <= Watcher.waited res <= 123
                    /\ 3 < Watcher.reads res <= 42).
  { destruct (@awaitCompletion_cases Watcher.script_config
                (fun k => output env (reads_done (dispatched customDelay w0) + k))
                ltac:(cbn; lia))
      as (res' & Hres' & Hcases).
    rewrite Hres in Hres'. inversion Hres'; subst res'.
    destruct Hcases as [(k & Hw & Ht & ->)|[Hwaited Hrd]].
    - apply window_settled in Hw; [|cbn; lia].
      pose proof (settled_requires Hw) as Hk.
      cbn in Ht, Hk |- *. lia.
    - rewrite Hwaited. cbn in Hrd |- *. lia. }
  destruct Hbounds as [[Ha Hb] [Hc' Hd]].
  assert (Hw0 : reads_done (dispatched customDelay w0) = reads_done w).
  { unfold dispatched. cbn [reads_done].
    pose proof (checkChatGPTAccess_frame env w) as Hf. rewrite Hacc in Hf.
    destruct Hf as (_ & E & _).
    destruct (waitForRateLimit_clock customDelay w0) as (_ & E' & _).
    congruence. }
  assert (Hdisp : lastRequestTime (dispatched customDelay w0)
                  = clock (dispatched customDelay w0)) by reflexivity.
  rewrite Hw0 in Hreads. subst N.
  split; [|lia].
  rewrite Hlast, Hclock, Hdisp.
  destruct Hsel as [->|[-> _]]; lia.
Qed.

Lemma askChatGPT_duration_witness :
  no_backslash "hello" = true
  /\ inside_literal (Some "Trip plan") = true
  /\ askChatGPT (calm settles []) "hello" (Some "Trip plan") None
       (world_at 1000000 0 "mine")
     = ({| clock := 1017505; lastRequestTime := 1000000; clipboard := "mine";
           input_field := ""; reads_done := 5;
           trace := [(1003505%Z, EvSetClipboard "mine");
                     (1003505%Z, EvSend "hello"); (1002500%Z, EvPaste "hello");
                     (1002000%Z, EvFocusInput);
                     (1002000%Z, EvSetClipboard "hello");
                     (1001000%Z, EvClickConversation "Trip plan");
                     (1000000%Z, EvActivate)] |}, inr "abc")
  /\ (13500 + Z.of_nat (String.length "hello")
      <= 1017505 - 1000000
      <= 128500 + Z.of_nat (String.length "hello"))%Z.
Proof.
  assert (E : askChatGPT (calm settles []) "hello" (Some "Trip plan") None
                (world_at 1000000 0 "mine")
              = ({| clock := 1017505; lastRequestTime := 1000000;
                    clipboard := "mine"; input_field := ""; reads_done := 5;
                    trace := [(1003505%Z, EvSetClipboard "mine");
                              (1003505%Z, EvSend "hello");
                              (1002500%Z, EvPaste "hello");
                              (1002000%Z, EvFocusInput);
                              (1002000%Z, EvSetClipboard "hello");
                              (1001000%Z, EvClickConversation "Trip plan");
                              (1000000%Z, EvActivate)] |}, inr "abc"))
    by (vm_compute; reflexivity).
  split; [reflexivity|]. split; [reflexivity|]. split; [exact E|].
  exact (proj1 (@askChatGPT_duration (calm settles []) "hello"
                  (Some "Trip plan") None (world_at 1000000 0 "mine") _ _
                  eq_refl eq_refl E)).
Defined.



(** ** Selecting a conversation *)

Lemma ask_script_unclickable (env : Env) (name p : string) (w : World) :
  conversation_button env name = false ->
  ask_script env {| select_target := Some name; thePrompt := p |} w
  = ask_script env {| select_target := None; thePrompt := p |} w.
Proof.
  intros Hb.
  unfold ask_script, try_, try_catch, click_conversation, bind, ret, throw.
  cbn [select_target thePrompt]. rewrite Hb.
  destruct (activate env w) as [w1 [e|u]]; [reflexivity|].
  destruct (delay 1 w1) as [w2 [e|u2]]; [reflexivity|].
  destruct (enter_system_events env w2) as [w3 [e|u3]]; reflexivity.
Qed.

(** X10 (best effort): a conversation that cannot be clicked is passed over
    in silence: the call does, returns and leaves behind exactly what the
    call without a conversation id does.  So does an empty conversation
    id. *)
Theorem selection_is_best_effort (env : Env) (prompt conversationId : string)
  (customDelay : option Z) (w : World) :
  plain conversationId = true ->
  conversation_button env conversationId = false ->
  askChatGPT env prompt (Some conversationId) customDelay w
  = askChatGPT env prompt None customDelay w
  /\ askChatGPT env prompt (Some "") customDelay w
     = askChatGPT env prompt None customDelay w.
Proof.
  intros Hplain Hb. split; [|reflexivity].
  destruct (checkChatGPTAccess env w) as [w0 [e|b]] eqn:Hacc.
  - destruct (@askChatGPT_unreachable env prompt (Some conversationId)
                customDelay w w0 e Hacc) as [-> _].
    destruct (@askChatGPT_unreachable env prompt None
                customDelay w w0 e Hacc) as [-> _].
    reflexivity.
  - rewrite (@askChatGPT_dispatch env prompt (Some conversationId)
               customDelay w w0 b Hacc).
    rewrite (@askChatGPT_dispatch env prompt None customDelay w w0 b Hacc).
    unfold try_catch, run_ask_script, when_truthy.
    destruct conversationId as [|c cid]; [reflexivity|].
    cbn [JsString.truthy String.eqb negb].
    unfold compile_ask_script.
    rewrite (@click_button_target_plain (String c cid) Hplain).
    rewrite String.eqb_refl.
    destruct (thePrompt_of prompt) as [[p [|x rest]]|]; try reflexivity.
    unfold runAppleScript, bind.
    now rewrite (@ask_script_unclickable env (String c cid) p _ Hb).
Qed.

Lemma selection_is_best_effort_witness :
  plain "Old chat" = true
  /\ conversation_button (unselectable settles) "Old chat" = false
  /\ askChatGPT (unselectable settles) "hello" (Some "Old chat") None
       (world_at 1000000 0 "mine")
     = askChatGPT (unselectable settles) "hello" None None
         (world_at 1000000 0 "mine").
Proof.
  split; [reflexivity|]. split; [reflexivity|].
  exact (proj1 (@selection_is_best_effort (unselectable settles) "hello"
                  "Old chat" None (world_at 1000000 0 "mine")
                  eq_refl eq_refl)).
Defined.

(** ** getConversations *)

Lemma append_nil_r (s : string) : s ++ "" = s.
Proof. induction s as [|c s IH]; cbn; [reflexivity | now rewrite IH]. Qed.

Lemma split_scan_comma_free (x t cur : string) :
  comma_free x = true ->
  JsString.split_scan ", " (x ++ t) 0 cur
  = JsString.split_scan ", " t 0 (cur ++ x).
Proof.
  revert cur. induction x as [|c x IH]; intros cur H.
  - cbn [String.append]. now rewrite append_nil_r.
  - cbn [comma_free] in H. apply andb_prop in H. destruct H as [Hc Hx].
    cbn [String.append JsString.split_scan JsString.starts_with].
    rewrite Ascii.eqb_sym. apply negb_true_iff in Hc. rewrite Hc.
    cbn [andb]. rewrite (IH _ Hx). unfold str1.
    rewrite append_assoc. reflexivity.
Qed.

Lemma split_scan_separator (t cur : string) :
  JsString.split_scan ", " (", " ++ t) 0 cur
  = cur :: JsString.split_scan ", " t 0 "".
Proof. reflexivity. Qed.

(** Splitting on ", " undoes joining with ", " when no piece holds a
    comma. *)
Lemma split_concat_comma_free (x : string) (l : list string) (cur : string) :
  comma_free x = true ->
  Forall (fun y => comma_free y = true) l ->
  JsString.split_scan ", " (String.concat ", " (x :: l)) 0 cur
  = (cur ++ x) :: l.
Proof.
  revert x cur. induction l as [|y l IH]; intros x cur Hx Hl.
  - cbn [String.concat]. rewrite <- (append_nil_r x) at 1.
    rewrite (@split_scan_comma_free x "" cur Hx). reflexivity.
  - inversion Hl as [|? ? Hy Hl']; subst.
    change (String.concat ", " (x :: y :: l))
      with (x ++ ", " ++ String.concat ", " (y :: l)).
    rewrite (@split_scan_comma_free x _ cur Hx), split_scan_separator.
    rewrite (IH y "" Hy Hl'). reflexivity.
Qed.

(** *** Trimming and comparing *)

Lemma trim_start_id (s : string) :
  starts_blank s = false -> JsString.trim_start s = s.
Proof.
  destruct s as [|c s]; [reflexivity|]. cbn. intros H. now rewrite H.
Qed.

Lemma trim_end_id (s : string) :
  ends_blank s = false -> JsString.trim_end s = s.
Proof.
  induction s as [|c s IH]; intros H; [reflexivity|].
  cbn [JsString.trim_end]. destruct s as [|d s].
  - cbn in H |- *. now rewrite H.
  - cbn [ends_blank] in H. rewrite (IH H). reflexivity.
Qed.

Lemma trim_id (s : string) :
  starts_blank s = false -> ends_blank s = false -> JsString.trim s = s.
Proof.
  intros H1 H2. unfold JsString.trim. rewrite (trim_start_id _ H1).
  apply trim_end_id, H2.
Qed.

Lemma starts_blank_app (a b : string) :
  a <> "" -> starts_blank (a ++ b) = starts_blank a.
Proof. destruct a; [congruence | reflexivity]. Qed.

Lemma append_not_empty (a b : string) : b <> "" -> a ++ b <> "".
Proof. destruct a; cbn; [auto | discriminate]. Qed.

Lemma ends_blank_app (a b : string) :
  b <> "" -> ends_blank (a ++ b) = ends_blank b.
Proof.
  intros Hb. induction a as [|c a IH]; [reflexivity|].
  cbn [String.append ends_blank].
  destruct (a ++ b) as [|d t] eqn:E.
  - exfalso. exact (append_not_empty a Hb E).
  - exact IH.
Qed.

Lemma tidy_parts (t : string) :
  tidy t = true ->
  t <> "" /\ comma_free t = true
  /\ starts_blank t = false /\ ends_blank t = false.
Proof.
  unfold tidy. rewrite !andb_true_iff, !negb_true_iff.
  intros [[[H1 H2] H3] H4]. repeat split; auto.
  intros ->. discriminate H1.
Qed.

Lemma concat_not_empty (x : string) (l : list string) :
  x <> "" -> String.concat ", " (x :: l) <> "".
Proof.
  intros Hx. destruct l as [|y l]; [exact Hx|].
  change (String.concat ", " (x :: y :: l))
    with (x ++ ", " ++ String.concat ", " (y :: l)).
  destruct x; [congruence | discriminate].
Qed.

(** Joined tidy titles have no white space at either end. *)
Lemma concat_tidy_ends (x : string) (l : list string) :
  Forall (fun t => tidy t = true) (x :: l) ->
  starts_blank (String.concat ", " (x :: l)) = false
  /\ ends_blank (String.concat ", " (x :: l)) = false.
Proof.
  revert x. induction l as [|y l IH]; intros x H;
    inversion H as [|? ? Hx Hl]; subst;
    destruct (tidy_parts _ Hx) as (Hne & _ & Hs & He).
  - split; assumption.
  - change (String.concat ", " (x :: y :: l))
      with (x ++ ", " ++ String.concat ", " (y :: l)).
    destruct (IH y Hl) as [_ IHe].
    assert (Hy : y <> "").
    { inversion Hl as [|? ? Hy' _]; subst. exact (proj1 (tidy_parts _ Hy')). }
    split.
    + now rewrite (starts_blank_app _ Hne).
    + rewrite ends_blank_app
        by (apply append_not_empty, (concat_not_empty l Hy)).
      rewrite ends_blank_app by (apply (concat_not_empty l Hy)).
      exact IHe.
Qed.



(** What [getConversations] returns when nothing fails. *)
Lemma getConversations_ok (env : Env) (w w0 : World) (b : bool)
  (names : list string) :
  checkChatGPTAccess env w = (w0, inr b) ->
  activate_error env = None ->
  system_events_error env = None ->
  chat_buttons env = Some names ->
  getConversations env w
  = (advance 1000 (record_event EvActivate w0),
     inr (JsString.split ", "
            (JsString.trim (AppleScript.print_list (titles names))))).
Proof.
  intros Hacc Ha Hs Hb. unfold getConversations.
  rewrite (bind_inr _ Hacc).
  unfold try_catch, runAppleScript, list_script, bind, activate,
    enter_system_events, fail_if, log, delay, ret, throw.
  rewrite Ha, Hs, Hb, ms_1. reflexivity.
Qed.

Lemma call_tool_list (env : Env) (w w' : World) (l : list string) :
  getConversations env w = (w', inr l) ->
  call_tool env "chatgpt" list_request w
  = (w', {| text := found_text l; isError := false |}).
Proof.
  intros H. unfold call_tool, dispatch.
  change (truthy list_request) with true.
  change (String.eqb "chatgpt" "chatgpt") with true.
  change (isChatGPTArgs list_request) with true.
  change (is_str "ask" (get "operation" list_request)) with false.
  change (is_str "get_conversations" (get "operation" list_request)) with true.
  cbn [negb]. cbv iota. rewrite (bind_inr _ H). reflexivity.
Qed.

(** X11 (listing): when nothing fails, the sidebar has a conversation and
    every title is tidy (not empty, no comma, no white space at either end),
    [getConversations] returns the titles of the buttons other than "New
    chat", in the sidebar's order, and the handler reports their number.
    "New chat" is told apart as the script does it, ignoring case. *)
Theorem getConversations_lists_titles (env : Env) (w w0 : World) (b : bool)
  (names : list string) :
  checkChatGPTAccess env w = (w0, inr b) ->
  activate_error env = None ->
  system_events_error env = None ->
  chat_buttons env = Some names ->
  titles names <> [] ->
  Forall (fun t => tidy t = true) (titles names) ->
  snd (getConversations env w) = inr (titles names)
  /\ snd (call_tool env "chatgpt" list_request w)
     = {| text := "Found " ++ decimal (List.length (titles names))
                    ++ " conversation(s):" ++ str1 LF ++ str1 LF
                    ++ JsString.join (str1 LF) (titles names);
          isError := false |}.
Proof.
  intros Hacc Ha Hs Hb Hne Htidy.
  pose proof (@getConversations_ok env w w0 b names Hacc Ha Hs Hb) as Hget.
  assert (E : JsString.split ", "
                (JsString.trim (AppleScript.print_list (titles names)))
              = titles names).
  { destruct (titles names) as [|x l]; [congruence|].
    unfold AppleScript.print_list.
    destruct (concat_tidy_ends Htidy) as [H1 H2].
    rewrite (trim_id _ H1 H2).
    inversion Htidy as [|? ? Hx Hl]; subst.
    unfold JsString.split.
    apply (@split_concat_comma_free x l "").
    - exact (proj1 (proj2 (tidy_parts _ Hx))).
    - apply Forall_forall. intros t Ht.
      rewrite Forall_forall in Hl.
      exact (proj1 (proj2 (tidy_parts _ (Hl t Ht)))). }
  rewrite E in Hget. split; [now rewrite Hget|].
  rewrite (@call_tool_list env w _ _ Hget). cbn [snd]. unfold found_text.
  destruct (titles names) as [|x l]; [congruence|]. reflexivity.
Qed.

Lemma getConversations_lists_titles_witness :
  checkChatGPTAccess (calm settles ["new Chat"; "Trip plan"; "Recipes"])
    (world_at 0 0 "") = (world_at 0 0 "", inr true)
  /\ titles ["new Chat"; "Trip plan"; "Recipes"] <> []
  /\ Forall (fun t => tidy t = true)
       (titles ["new Chat"; "Trip plan"; "Recipes"])
  /\ snd (getConversations (calm settles ["new Chat"; "Trip plan"; "Recipes"])
            (world_at 0 0 ""))
     = inr ["Trip plan"; "Recipes"].
Proof.
  assert (Hne : titles ["new Chat"; "Trip plan"; "Recipes"] <> [])
    by (cbn; discriminate).
  assert (Htidy : Forall (fun t => tidy t = true)
                    (titles ["new Chat"; "Trip plan"; "Recipes"]))
    by (cbn; repeat constructor).
  split; [reflexivity|]. split; [exact Hne|]. split; [exact Htidy|].
  exact (proj1 (@getConversations_lists_titles
                  (calm settles ["new Chat"; "Trip plan"; "Recipes"])
                  (world_at 0 0 "") (world_at 0 0 "") true
                  ["new Chat"; "Trip plan"; "Recipes"]
                  eq_refl eq_refl eq_refl eq_refl Hne Htidy)).
Defined.




(** X13 (empty sidebar): when nothing fails and the sidebar has no button
    other than "New chat", [getConversations] returns one entry, the empty
    string, and the handler reports one conversation with an empty title. *)
Theorem getConversations_empty_sidebar (env : Env) (w w0 : World) (b : bool)
  (names : list string) :
  checkChatGPTAccess env w = (w0, inr b) ->
  activate_error env = None ->
  system_events_error env = None ->
  chat_buttons env = Some names ->
  titles names = [] ->
  snd (getConversations env w) = inr [""]
  /\ snd (call_tool env "chatgpt" list_request w)
     = {| text := "Found 1 conversation(s):" ++ str1 LF ++ str1 LF;
          isError := false |}.
Proof.
  intros Hacc Ha Hs Hb Hempty.
  pose proof (@getConversations_ok env w w0 b names Hacc Ha Hs Hb) as Hget.
  rewrite Hempty in Hget.
  change (JsString.split ", " (JsString.trim (AppleScript.print_list [])))
    with [""] in Hget.
  split; [now rewrite Hget|].
  now rewrite (@call_tool_list env w _ _ Hget).
Qed.

Lemma getConversations_empty_sidebar_witness :
  checkChatGPTAccess (calm settles ["New chat"]) (world_at 0 0 "")
  = (world_at 0 0 "", inr true)
  /\ titles ["New chat"] = []
  /\ snd (getConversations (calm settles ["New chat"]) (world_at 0 0 ""))
     = inr [""].
Proof.
  split; [reflexivity|]. split; [reflexivity|].
  exact (proj1 (@getConversations_empty_sidebar (calm settles ["New chat"])
                  (world_at 0 0 "") (world_at 0 0 "") true ["New chat"]
                  eq_refl eq_refl eq_refl eq_refl eq_refl)).
Defined.

(** X14 (listing is not paced): [getConversations] never waits for the rate
    limiter and never records a dispatch; it leaves the clipboard, the chat
    input and the output reads alone and takes at most 3 s. *)
Theorem getConversations_frame (env : Env) (w : World) :
  let w' := fst (getConversations env w) in
  lastRequestTime w' = lastRequestTime w
  /\ sleeps (trace w') = sleeps (trace w)
  /\ clipboard w' = clipboard w
  /\ input_field w' = input_field w
  /\ reads_done w' = reads_done w
  /\ (clock w <= clock w' <= clock w + 3000)%Z.
Proof.
  unfold getConversations, checkChatGPTAccess, exists_script, activate_script,
    list_script, activate, enter_system_events, try_catch, fail_if, log,
    delay, bind, ret, throw.
  rewrite ms_1, ms_2.
  destruct (process_exists env) as [e0|printed];
    [cbn; repeat split; lia|].
  destruct (String.eqb printed "true");
    destruct (activate_error env); cbn;
    try destruct (system_events_error env); cbn; repeat split; lia.
Qed.

(** ** The handler *)

Lemma isChatGPTArgs_operation (args : JsVal) :
  isChatGPTArgs args = true ->
  is_str "ask" (get "operation" args) = true
  \/ is_str "get_conversations" (get "operation" args) = true.
Proof.
  unfold isChatGPTArgs. intros H.
  destruct (is_object args); [|discriminate]. cbn [negb] in H.
  destruct (truthy (get "operation" args)); [|discriminate].
  cbn [negb orb] in H.
  destruct (is_str "ask" (get "operation" args)); [now left|].
  destruct (is_str "get_conversations" (get "operation" args)); [now right|].
  discriminate H.
Qed.

Lemma askChatGPT_error_text (env : Env) (prompt : string)
  (conversationId : option string) (customDelay : option Z)
  (w w' : World) (e : string) :
  askChatGPT env prompt conversationId customDelay w = (w', inl e) ->
  exists e0, e = cannot_access ++ e0 \/ e = failed_to_get ++ e0.
Proof.
  intros H.
  destruct (checkChatGPTAccess env w) as [w0 [e1|b]] eqn:Hacc.
  - destruct (@askChatGPT_unreachable env prompt conversationId customDelay
                w w0 e1 Hacc) as [Hrun [e0 He]].
    rewrite Hrun in H. inversion H; subst. exists e0. now left.
  - rewrite (@askChatGPT_dispatch env prompt conversationId customDelay
               w w0 b Hacc) in H.
    unfold try_catch, throw in H.
    destruct (run_ask_script env prompt conversationId
                (dispatched customDelay w0)) as [w1 [e0|r]];
      [|discriminate H].
    inversion H; subst. exists e0. now right.
Qed.

Lemma getConversations_error_text (env : Env) (w w' : World) (e : string) :
  getConversations env w = (w', inl e) ->
  exists e0, e = cannot_access ++ e0.
Proof.
  intros H.
  destruct (getConversations_cases env w)
    as [(w1 & e1 & H1 & Hacc)|(w1 & l & H1 & _)];
    rewrite H1 in H; inversion H; subst.
  pose proof (checkChatGPTAccess_frame env w) as Hf. rewrite Hacc in Hf.
  destruct Hf as (_ & _ & _ & _ & Hf). exact (proj2 (Hf e eq_refl)).
Qed.

Lemma found_text_not_empty (l : list string) : found_text l <> "".
Proof.
  unfold found_text. destruct (0 <? List.length l); cbn; discriminate.
Qed.

(** X15 (no effect without valid arguments): for a tool other than
    [chatgpt], or for arguments that [isChatGPTArgs] refuses, the handler
    answers with its error flag set and leaves the world as it found it. *)
Theorem call_tool_refuses_without_effect
  (env : Env) (name : string) (args : JsVal) (w : World) :
  name <> "chatgpt" \/ isChatGPTArgs args = false ->
  fst (call_tool env name args w) = w
  /\ isError (snd (call_tool env name args w)) = true.
Proof.
  intros H. unfold call_tool, dispatch.
  destruct (truthy args); cbn [negb]; [|split; reflexivity].
  destruct (String.eqb_spec name "chatgpt") as [->|Hname];
    [|split; reflexivity].
  destruct H as [H|H]; [congruence|]. rewrite H. split; reflexivity.
Qed.

Lemma call_tool_refuses_without_effect_witness :
  ("notes" <> "chatgpt"
   \/ isChatGPTArgs (JObj [("operation", JStr "delete")]) = false)
  /\ fst (call_tool (calm settles []) "chatgpt"
            (JObj [("operation", JStr "delete")]) (world_at 7 0 "mine"))
     = world_at 7 0 "mine".
Proof.
  split; [right; reflexivity|].
  exact (proj1 (@call_tool_refuses_without_effect (calm settles []) "chatgpt"
                  (JObj [("operation", JStr "delete")]) (world_at 7 0 "mine")
                  (or_intror eq_refl))).
Defined.

(** X16 (the answers of the handler): every answer of the handler is of one
    of these kinds.  Without the error flag: a non-empty text, for a
    validated [chatgpt] request.  With the error flag: "Unknown tool: " and
    the name, for another tool; or "Error: " followed by "No arguments
    provided", by "Invalid arguments for ChatGPT tool", by the "Cannot
    access" text or by the "Failed to get response" text.  The handler's
    "Prompt is required for ask operation" and "Unknown operation" errors
    are not among them: validation has excluded them. *)
Theorem call_tool_answers
  (env : Env) (name : string) (args : JsVal) (w : World) :
  let r := snd (call_tool env name args w) in
  (isError r = false /\ text r <> ""
   /\ name = "chatgpt" /\ isChatGPTArgs args = true)
  \/ (isError r = true
      /\ ((text r = "Unknown tool: " ++ name /\ name <> "chatgpt")
          \/ text r = "Error: No arguments provided"
          \/ text r = "Error: Invalid arguments for ChatGPT tool"
          \/ (exists e0, text r = "Error: " ++ cannot_access ++ e0)
          \/ (exists e0, text r = "Error: " ++ failed_to_get ++ e0))
      /\ text r <> "Error: Prompt is required for ask operation"
      /\ JsString.starts_with "Error: Unknown operation: " (text r) = false).
Proof.
  unfold call_tool, dispatch.
  destruct (truthy args); cbn [negb];
    [|right; cbn; split; [reflexivity|]; split;
      [right; left; reflexivity|]; split; [discriminate | reflexivity]].
  destruct (String.eqb_spec name "chatgpt") as [->|Hname].
  2:{ right. cbn [snd ret isError text]. split; [reflexivity|]. split.
      - left. split; [reflexivity | exact Hname].
      - split; [cbn; discriminate | reflexivity]. }
  destruct (isChatGPTArgs args) eqn:Hvalid; cbn [negb];
    [|right; cbn; split; [reflexivity|]; split;
      [right; right; left; reflexivity|]; split; [discriminate | reflexivity]].
  destruct (is_str "ask" (get "operation" args)) eqn:Hask.
  - destruct (isChatGPTArgs_ask_has_prompt args Hvalid Hask) as (s & Hs & Hne).
    rewrite Hs. cbn [truthy as_string].
    assert (Ht : JsString.truthy s = true).
    { unfold JsString.truthy. destruct (String.eqb_spec s ""); [contradiction|].
      reflexivity. }
    rewrite Ht. cbn [negb].
    destruct (askChatGPT env s
                (as_optional_string (get "conversation_id" args))
                (as_optional_number (get "delay_ms" args)) w)
      as [w' [e|response]] eqn:Hrun.
    + rewrite (bind_inl _ Hrun). right. cbn [snd isError text].
      split; [reflexivity|].
      destruct (@askChatGPT_error_text _ _ _ _ _ _ _ Hrun) as [e0 [->| ->]].
      * split; [right; right; right; left; now exists e0|].
        split; [cbn; discriminate | reflexivity].
      * split; [right; right; right; right; now exists e0|].
        split; [cbn; discriminate | reflexivity].
    + rewrite (bind_inr _ Hrun). left. cbn [ret snd isError text].
      split; [reflexivity|]. split; [|split; reflexivity].
      unfold JsString.truthy.
      destruct (String.eqb_spec response ""); cbn [negb];
        [discriminate | assumption].
  - destruct (isChatGPTArgs_operation args Hvalid) as [H|Hlist];
      [congruence|]. rewrite Hlist.
    destruct (getConversations env w) as [w' [e|l]] eqn:Hrun.
    + rewrite (bind_inl _ Hrun). right. cbn [snd isError text].
      split; [reflexivity|].
      destruct (@getConversations_error_text _ _ _ _ Hrun) as [e0 ->].
      split; [right; right; right; left; now exists e0|].
      split; [cbn; discriminate | reflexivity].
    + rewrite (bind_inr _ Hrun). left. cbn [ret snd isError text].
      split; [reflexivity|]. split; [apply found_text_not_empty|].
      split; reflexivity.
Qed.

(** X17 (falsy fields): the type checks of [isChatGPTArgs] are made only on
    truthy values, so a [conversation_id] that is null, false, 0 or the empty
    string passes them, and the handler then asks exactly as it does for the
    request without a conversation id.  [delay_ms] is checked against
    [undefined]: a null [delay_ms] is refused. *)
Theorem falsy_conversation_id_is_ignored
  (env : Env) (prompt : string) (conversation_id : JsVal) (w : World) :
  truthy conversation_id = false ->
  prompt <> "" ->
  isChatGPTArgs (JObj [("operation", JStr "ask"); ("prompt", JStr prompt);
                       ("conversation_id", conversation_id)]) = true
  /\ call_tool env "chatgpt"
       (JObj [("operation", JStr "ask"); ("prompt", JStr prompt);
              ("conversation_id", conversation_id)]) w
     = call_tool env "chatgpt" (ask_request (JStr prompt)) w
  /\ isChatGPTArgs (JObj [("operation", JStr "ask"); ("prompt", JStr prompt);
                          ("delay_ms", JNull)]) = false.
Proof.
  intros Hc Hp.
  assert (Ht : JsString.truthy prompt = true).
  { unfold JsString.truthy. destruct (String.eqb_spec prompt "");
      [contradiction | reflexivity]. }
  assert (Hvalid : isChatGPTArgs
                     (JObj [("operation", JStr "ask"); ("prompt", JStr prompt);
                            ("conversation_id", conversation_id)]) = true).
  { unfold isChatGPTArgs. cbn. rewrite Ht, Hc. reflexivity. }
  split; [exact Hvalid|]. split.
  - unfold call_tool, dispatch, ask_request. rewrite Hvalid.
    assert (Hvalid' : isChatGPTArgs
                        (JObj [("operation", JStr "ask");
                               ("prompt", JStr prompt)]) = true).
    { unfold isChatGPTArgs. cbn. rewrite Ht. reflexivity. }
    rewrite Hvalid'. cbn. rewrite Ht. cbn.
    assert (E : forall d,
               askChatGPT env prompt (as_optional_string conversation_id) d w
               = askChatGPT env prompt None d w).
    { intros d. destruct conversation_id as [| | | |s|]; try reflexivity.
      cbn in Hc. unfold JsString.truthy in Hc.
      apply negb_false_iff in Hc. apply String.eqb_eq in Hc. subst s.
      reflexivity. }
    unfold bind. rewrite E. reflexivity.
  - unfold isChatGPTArgs. cbn. rewrite Ht. reflexivity.
Qed.

Lemma falsy_conversation_id_is_ignored_witness :
  truthy JNull = false /\ "hello" <> ""
  /\ call_tool (calm settles []) "chatgpt"
       (JObj [("operation", JStr "ask"); ("prompt", JStr "hello");
              ("conversation_id", JNull)]) (world_at 1000000 0 "mine")
     = call_tool (calm settles []) "chatgpt" (ask_request (JStr "hello"))
         (world_at 1000000 0 "mine").
Proof.
  assert (Hne : "hello" <> "") by discriminate.
  split; [reflexivity|]. split; [exact Hne|].
  exact (proj1 (proj2 (@falsy_conversation_id_is_ignored (calm settles [])
                         "hello" JNull (world_at 1000000 0 "mine")
                         eq_refl Hne))).
Defined.
